(** * The Task concept (server/concepts/task.ts)

    A shallow embedding of [TaskConcept]: the task documents, the partial
    updates, the guard predicates and the operations built on the document
    collection, followed by the properties of the task state and permission
    machine. *)

From stdpp Require Import gmap strings list fin_maps sorting.

Open Scope string_scope.
Open Scope list_scope.

(** ** Errors (server/concepts/errors.ts) *)

(** The two error classes the concept throws, each with its message, and the
    failure of the store itself on an insert under a key already in use. *)
Inductive Error : Type :=
  | NotFoundError (msg : string)
  | NotAllowedError (msg : string)
  | DuplicateKeyError.

(** The acknowledgment object [{ msg }] every operation returns. *)
Record Ack : Type := mkAck { msg : string }.

(** [Array.prototype.includes] on an array of strings. *)
Definition includes (l : list string) (x : string) : bool :=
  bool_decide (x ∈ l).

(** [Array.prototype.indexOf] on an array of strings: the first index holding
    [x]; [None] stands for the result -1. *)
Fixpoint indexOf (l : list string) (x : string) : option nat :=
  match l with
  | [] => None
  | y :: l' => if decide (y = x) then Some 0 else S <$> indexOf l' x
  end.

(** [arr.splice(index, 1)]: the array without the element at [index]. *)
Definition splice1 {A : Type} (l : list A) (index : nat) : list A :=
  delete index l.

(** [String.prototype.toString]. *)
Definition strToString (s : string) : string := s.

(** mongodb's [ObjectId], known by its canonical string form.  Nothing is
    assumed of [toString]: two identifiers with the same string are the same
    logical identifier, in whatever representation they come. *)
Class Identifier (ObjectId : Type) : Type :=
  toString : ObjectId -> string.

Section TaskConcept.

Context {ObjectId : Type} `{Identifier ObjectId}.

(** A [Date], as its time value in milliseconds. *)
Definition Date : Type := Z.

(** [TaskDoc]: the declared fields, and the [_id] of the base document. *)
Record TaskDoc : Type := mkTaskDoc {
  _id : ObjectId;
  requester : ObjectId;
  title : string;
  description : string;
  deadline : Date;
  files : list string;
  assisters : list ObjectId;
  viewed : list ObjectId;
  completed : bool;
  completionDate : option Date;
  completer : option ObjectId
}.

(** [Partial<TaskDoc>]: an object holding any subset of the declared fields;
    [None] is a key the object does not have. *)
Record PartialTaskDoc : Type := mkPartial {
  p_requester : option ObjectId;
  p_title : option string;
  p_description : option string;
  p_deadline : option Date;
  p_files : option (list string);
  p_assisters : option (list ObjectId);
  p_viewed : option (list ObjectId);
  p_completed : option bool;
  p_completionDate : option (option Date);
  p_completer : option (option ObjectId)
}.

Definition key_of {A : Type} (name : string) (o : option A) : list string :=
  match o with Some _ => [name] | None => [] end.

(** The keys a [for (const key in update)] loop goes through. *)
Definition keys (u : PartialTaskDoc) : list string :=
  key_of "requester" (p_requester u) ++ key_of "title" (p_title u) ++
  key_of "description" (p_description u) ++ key_of "deadline" (p_deadline u) ++
  key_of "files" (p_files u) ++ key_of "assisters" (p_assisters u) ++
  key_of "viewed" (p_viewed u) ++ key_of "completed" (p_completed u) ++
  key_of "completionDate" (p_completionDate u) ++
  key_of "completer" (p_completer u).

(** The object literals the operations pass to [updateOne]. *)
Definition assistersUpdate (l : list ObjectId) : PartialTaskDoc :=
  mkPartial None None None None None (Some l) None None None None.

Definition viewedUpdate (l : list ObjectId) : PartialTaskDoc :=
  mkPartial None None None None None None (Some l) None None None.

Definition completeUpdate (date : Date) (assister : option ObjectId)
  : PartialTaskDoc :=
  mkPartial None None None None None None None
            (Some true) (Some (Some date)) (Some assister).

(** ** The document collection (server/framework/doc.ts) *)

(** Modelled from the spec: the class [DocCollection] of framework/doc.ts
    is missing.  The spec describes a keyed document store with create
    (insert one, returns id), read-one, update-one (by id, arbitrary
    partial-field overwrite) and delete-one (by id), identifiers being
    compared by canonical string form.  The store is a finite map from the
    string of an identifier to the document stored under it. *)
Abbreviation Store := (gmap string TaskDoc).

(** Modelled from the spec: update-one overwrites each field the partial
    holds with the partial's value and keeps the others. *)
Definition applyUpdate (u : PartialTaskDoc) (d : TaskDoc) : TaskDoc :=
  {| _id := _id d;
     requester := default (requester d) (p_requester u);
     title := default (title d) (p_title u);
     description := default (description d) (p_description u);
     deadline := default (deadline d) (p_deadline u);
     files := default (files d) (p_files u);
     assisters := default (assisters d) (p_assisters u);
     viewed := default (viewed d) (p_viewed u);
     completed := default (completed d) (p_completed u);
     completionDate := default (completionDate d) (p_completionDate u);
     completer := default (completer d) (p_completer u) |}.

(** Computations over the store that may throw: the state reached and
    either the error thrown or the value returned.  Writes made before a
    throw stay. *)
Definition M (A : Type) : Type := Store -> (Error + A) * Store.

Definition ret {A : Type} (a : A) : M A := fun s => (inr a, s).

Definition throw {A : Type} (e : Error) : M A := fun s => (inl e, s).

Definition bind {A B : Type} (m : M A) (k : A -> M B) : M B :=
  fun s =>
    match m s with
    | (inl e, s') => (inl e, s')
    | (inr a, s') => k a s'
    end.

Notation "x <- c ;; k" := (bind c (fun x => k))
  (at level 100, c at next level, right associativity).
Notation "c ;;; k" := (bind c (fun _ => k))
  (at level 100, right associativity).

(** Modelled from the spec: read-one by id yields the document stored under
    the id, each time as a fresh object, or null. *)
Definition readOne (id : ObjectId) : M (option TaskDoc) :=
  fun s => (inr (s !! toString id), s).

(** Modelled from the spec: insert-one stores the item under the identifier
    [newId] the store assigns to it and returns that identifier; a key
    already in use is a storage failure. *)
Definition createOne (newId : ObjectId) (item : ObjectId -> TaskDoc)
  : M ObjectId :=
  fun s =>
    match s !! toString newId with
    | Some _ => (inl DuplicateKeyError, s)
    | None => (inr newId, <[toString newId := item newId]> s)
    end.

(** Modelled from the spec: update-one by id overwrites the fields of the
    document stored under the id; no document is created when none is. *)
Definition updateOne (id : ObjectId) (u : PartialTaskDoc) : M unit :=
  fun s => (inr tt, alter (applyUpdate u) (toString id) s).

(** Modelled from the spec: delete-one by id removes the document stored
    under the id, if any. *)
Definition deleteOne (id : ObjectId) : M unit :=
  fun s => (inr tt, delete (toString id) s).

(** ** The operations of [TaskConcept] *)

Record Created : Type := mkCreated {
  created_msg : string;
  created_id : ObjectId;
  created_task : option TaskDoc
}.

(** [create]; [newId] is the identifier the store assigns, and [files] is
    [None] when the caller leaves the argument out. *)
Definition create (newId : ObjectId) (requester : ObjectId)
    (title description : string) (deadline : Date)
    (files : option (list string))
  : M Created :=
  let files := default [] files in
  id <- createOne newId (fun id =>
          {| _id := id;
             requester := requester;
             title := title;
             description := description;
             deadline := deadline;
             files := files;
             assisters := [];
             viewed := [];
             completed := false;
             completionDate := None;
             completer := None |}) ;;
  task <- readOne id ;;
  ret (mkCreated "Task successfully created!" id task).

Definition getTaskById (id : ObjectId) : M TaskDoc :=
  task <- readOne id ;;
  match task with
  | None => throw (NotFoundError "Task not found!")
  | Some task => ret task
  end.

Definition prohibitedUpdates : list string := ["requester"].

(** The loop of [sanitizeUpdate] over the keys of the update. *)
Fixpoint sanitizeKeys (ks : list string) : M unit :=
  match ks with
  | [] => ret tt
  | key :: ks' =>
      if includes prohibitedUpdates key
      then throw (NotAllowedError ("Cannot update '" +:+ key +:+ "' field!"))
      else sanitizeKeys ks'
  end.

Definition sanitizeUpdate (update : PartialTaskDoc) : M unit :=
  sanitizeKeys (keys update).

Definition update (id : ObjectId) (update : PartialTaskDoc) : M Ack :=
  sanitizeUpdate update ;;;
  updateOne id update ;;;
  ret (mkAck "Task successfully updated!").

(** [delete]; the bare name is the removal of a key from a finite map. *)
Definition delete_ (id : ObjectId) : M Ack :=
  deleteOne id ;;;
  ret (mkAck "Task deleted successfully!").

Definition doesNotExist (id : ObjectId) : Error :=
  NotFoundError ("Task " +:+ toString id +:+ " does not exist!").

Definition isNotRequester (requester_ : ObjectId) (id : ObjectId) : M unit :=
  task <- readOne id ;;
  match task with
  | None => throw (doesNotExist id)
  | Some task =>
      if decide (toString (requester task) = toString requester_)
      then throw (NotAllowedError "Person is the requester.")
      else ret tt
  end.

Definition isNotAssister (assister : ObjectId) (id : ObjectId) : M unit :=
  task <- readOne id ;;
  match task with
  | None => throw (doesNotExist id)
  | Some task =>
      let assisters := map toString (assisters task) in
      if includes (map strToString assisters) (toString assister)
      then throw (NotAllowedError "Person is already an assister.")
      else ret tt
  end.

Definition isAssister (assister : ObjectId) (id : ObjectId) : M unit :=
  task <- readOne id ;;
  match task with
  | None => throw (doesNotExist id)
  | Some task =>
      let assisters := map toString (assisters task) in
      if negb (includes (map strToString assisters) (toString assister))
      then throw (NotAllowedError "Person is not an assister.")
      else ret tt
  end.

(** [offerHelp].  The write is issued without [await]; the store takes the
    commands in the order they are issued, so it is in place for whatever
    is issued next. *)
Definition offerHelp (assister : ObjectId) (id : ObjectId) : M Ack :=
  isNotRequester assister id ;;;
  isNotAssister assister id ;;;
  task <- readOne id ;;
  match task with
  | None => throw (doesNotExist id)
  | Some task =>
      let assisters := assisters task ++ [assister] in
      updateOne id (assistersUpdate assisters) ;;;
      ret (mkAck "Successfully offered help.")
  end.

(** [retractHelp]; its write is issued as the one of [offerHelp]. *)
Definition retractHelp (assister : ObjectId) (id : ObjectId) : M Ack :=
  isNotRequester assister id ;;;
  isAssister assister id ;;;
  task <- readOne id ;;
  match task with
  | None => throw (doesNotExist id)
  | Some task =>
      let assisters :=
        match indexOf (map toString (assisters task)) (toString assister) with
        | Some index => splice1 (assisters task) index
        | None => assisters task
        end in
      updateOne id (assistersUpdate assisters) ;;;
      ret (mkAck "Successfully retracted help offer.")
  end.

(** [complete]; [now] is the value of [new Date()]. *)
Definition complete (now : Date) (id : ObjectId) (assister : option ObjectId)
  : M Ack :=
  task <- readOne id ;;
  match task with
  | None => throw (doesNotExist id)
  | Some _ =>
      updateOne id (completeUpdate now assister) ;;;
      ret (mkAck "Successfully completed task.")
  end.

Definition view (viewer : ObjectId) (id : ObjectId) : M Ack :=
  task <- readOne id ;;
  match task with
  | None => throw (doesNotExist id)
  | Some task =>
      let viewed := viewed task in
      if negb (includes (map toString viewed) (toString viewer))
      then updateOne id (viewedUpdate (viewed ++ [viewer])) ;;;
           ret (mkAck "Successfully viewed task.")
      else ret (mkAck "Successfully viewed task.")
  end.

(** ** Notions the properties are stated with *)

(** Membership of an array of identifiers, decided on the string forms. *)
Definition memberOf (a : ObjectId) (l : list ObjectId) : Prop :=
  toString a ∈ map toString l.

#[global] Instance memberOf_dec (a : ObjectId) (l : list ObjectId) :
  Decision (memberOf a l).
Proof. unfold memberOf. apply _. Defined.

(** The number of entries of an array that have the string form of [a]. *)
Definition occurrences (a : ObjectId) (l : list ObjectId) : nat :=
  length (filter (λ y, toString y = toString a) l).

(** The calls a client of the concept can make, and the store each leaves
    behind, whether it returns or throws. *)
Inductive Op : Type :=
  | OpCreate (newId requester : ObjectId) (title description : string)
             (deadline : Date) (files : option (list string))
  | OpUpdate (id : ObjectId) (u : PartialTaskDoc)
  | OpDelete (id : ObjectId)
  | OpOfferHelp (assister id : ObjectId)
  | OpRetractHelp (assister id : ObjectId)
  | OpComplete (now : Date) (id : ObjectId) (assister : option ObjectId)
  | OpView (viewer id : ObjectId).

Definition exec (op : Op) (s : Store) : Store :=
  match op with
  | OpCreate newId r t d dl fs => (create newId r t d dl fs s).2
  | OpUpdate id u => (update id u s).2
  | OpDelete id => (delete_ id s).2
  | OpOfferHelp a id => (offerHelp a id s).2
  | OpRetractHelp a id => (retractHelp a id s).2
  | OpComplete now id a => (complete now id a s).2
  | OpView v id => (view v id s).2
  end.

(** The calls that write [completed: false]: a raw update holding it. *)
Definition reopens (op : Op) : bool :=
  match op with
  | OpUpdate _ u =>
      match p_completed u with Some false => true | _ => false end
  | _ => false
  end.

(** ** The queries and the requester guard of [TaskConcept] *)

(** The order of [sort: { deadline: 1 }]: ascending deadlines. *)
Definition deadlineLe (d1 d2 : TaskDoc) : Prop :=
  (deadline d1 ≤ deadline d2)%Z.

#[global] Instance deadlineLe_dec (d1 d2 : TaskDoc) :
  Decision (deadlineLe d1 d2).
Proof. unfold deadlineLe. apply _. Defined.

(** Modelled from the spec: a [Filter<TaskDoc>], known by the documents it
    matches. *)
Definition Filter : Type := TaskDoc -> bool.

(** Modelled from the spec: read-many yields the stored documents the filter
    matches, sorted as the options ask; the concept only ever asks for
    [sort: { deadline: 1 }]. *)
Definition readMany (query : Filter) : M (list TaskDoc) :=
  fun s =>
    (inr (merge_sort deadlineLe
            (filter (λ d, query d = true) (map_to_list s).*2)), s).

Definition getTasks (query : Filter) : M (list TaskDoc) :=
  tasks <- readMany query ;;
  ret tasks.

(** The filter [{ requester, completed: false }]. *)
Definition requesterOpen (requester_ : ObjectId) : Filter :=
  fun d =>
    bool_decide (toString (requester d) = toString requester_) &&
    bool_decide (completed d = false).

Definition getTasksByRequester (requester_ : ObjectId) : M (list TaskDoc) :=
  getTasks (requesterOpen requester_).

(** What [isRequester] throws: an error of the concept, or
    [TaskRequesterNotMatchError], the NotAllowedError that keeps its format
    together with the requester and the task identifier to be put in it. *)
Inductive GuardError : Type :=
  | Thrown (e : Error)
  | TaskRequesterNotMatchError (format : string) (requester_ task : ObjectId).

Definition isRequester (requester_ : ObjectId) (id : ObjectId)
  : Store -> (GuardError + unit) * Store :=
  fun s =>
    match readOne id s with
    | (inl e, s') => (inl (Thrown e), s')
    | (inr None, s') => (inl (Thrown (doesNotExist id)), s')
    | (inr (Some task), s') =>
        if decide (toString (requester task) ≠ toString requester_)
        then (inl (TaskRequesterNotMatchError
                     "{0} is not the host of Task {1}!" requester_ id), s')
        else (inr tt, s')
    end.

(** ** Further notions the properties are stated with *)

(** The error a call throws, if it throws. *)
Definition thrown {A : Type} (r : (Error + A) * Store) : option Error :=
  match r.1 with inl e => Some e | inr _ => None end.

Definition outcome (op : Op) (s : Store) : option Error :=
  match op with
  | OpCreate newId r t d dl fs => thrown (create newId r t d dl fs s)
  | OpUpdate id u => thrown (update id u s)
  | OpDelete id => thrown (delete_ id s)
  | OpOfferHelp a id => thrown (offerHelp a id s)
  | OpRetractHelp a id => thrown (retractHelp a id s)
  | OpComplete now id a => thrown (complete now id a s)
  | OpView v id => thrown (view v id s)
  end.

(** The task identifier a call is about. *)
Definition target (op : Op) : ObjectId :=
  match op with
  | OpCreate newId _ _ _ _ _ => newId
  | OpUpdate id _ => id
  | OpDelete id => id
  | OpOfferHelp _ id => id
  | OpRetractHelp _ id => id
  | OpComplete _ id _ => id
  | OpView _ id => id
  end.

(** The raw updates that hold [assisters] or [viewed]. *)
Definition writesArrays (op : Op) : bool :=
  match op with
  | OpUpdate _ u =>
      match p_assisters u, p_viewed u with
      | None, None => false
      | _, _ => true
      end
  | _ => false
  end.

(** The calls of a client one after the other. *)
Definition execAll (ops : list Op) (s : Store) : Store :=
  foldl (fun s op => exec op s) s ops.

(** The invariants of the data model on the two arrays of a task: the
    requester is no assister, and neither array holds a user twice. *)
Definition wellFormed (d : TaskDoc) : Prop :=
  ¬ memberOf (requester d) (assisters d) ∧
  NoDup (map toString (assisters d)) ∧
  NoDup (map toString (viewed d)).

(** Every document is stored under the string of its own [_id]. *)
Definition keyed (s : Store) : Prop :=
  ∀ k d, s !! k = Some d → toString (_id d) = k.

(** The fields that only [create] and a raw [update] write. *)
Definition sameContent (d d' : TaskDoc) : Prop :=
  _id d' = _id d ∧ requester d' = requester d ∧ title d' = title d ∧
  description d' = description d ∧ deadline d' = deadline d ∧
  files d' = files d.

(** The three fields [complete] writes. *)
Definition sameCompletion (d d' : TaskDoc) : Prop :=
  completed d' = completed d ∧ completionDate d' = completionDate d ∧
  completer d' = completer d.

End TaskConcept.

(** ** The conversions for the frontend (server/responses.ts) *)

Section Responses.

Context {ObjectId : Type} `{Identifier ObjectId}.

(** [User.idsToUsernames] belongs to the User concept, which is not among
    these sources: the conversions take it as a parameter, a function from
    the array of identifiers to the array of names it resolves to. *)
Variable idsToUsernames : list ObjectId -> list string.

(** The documents of the post, friend and message concepts, known by the
    identifiers the conversions read from them. *)
Variables PostDoc FriendRequestDoc MessageDoc : Type.
Variable author : PostDoc -> ObjectId.
Variables request_from request_to : FriendRequestDoc -> ObjectId.
Variables message_from message_to : MessageDoc -> ObjectId.

(** [posts]: each [{ ...post, author: authors[i] }] is the document with the
    value that overrides its [author]; [None] is [undefined], what an index
    out of the array gives. *)
Definition posts (ps : list PostDoc) : list (PostDoc * option string) :=
  let authors := idsToUsernames (map author ps) in
  imap (fun i post => (post, authors !! i)) ps.

(** [friendRequests]: each document with the values that override its
    [from] and its [to]. *)
Definition friendRequests (requests : list FriendRequestDoc)
  : list (FriendRequestDoc * option string * option string) :=
  let from := map request_from requests in
  let to := map request_to requests in
  let usernames := idsToUsernames (from ++ to) in
  imap (fun i request =>
          (request, usernames !! i, usernames !! (i + length requests)))
       requests.

Definition messages (ms : list MessageDoc)
  : list (MessageDoc * option string * option string) :=
  let from := map message_from ms in
  let to := map message_to ms in
  let usernames := idsToUsernames (from ++ to) in
  imap (fun i message =>
          (message, usernames !! i, usernames !! (i + length ms)))
       ms.

(** What [tasks] puts over the fields of a task: the names for [requester],
    [assisters] and [viewed], and [matched] when the call has the second
    argument ([None]: the object has no such key). *)
Record TaskNames : Type := mkTaskNames {
  names_requester : option string;
  names_assisters : option (list string);
  names_viewed : option (list string);
  names_matched : option (option bool)
}.

Definition tasks (ts : list (@TaskDoc ObjectId)) (isMatched : option (list bool))
  : list (@TaskDoc ObjectId * TaskNames) :=
  let requesters := idsToUsernames (map requester ts) in
  let assisters := map (fun task => idsToUsernames (assisters task)) ts in
  let viewers := map (fun task => idsToUsernames (viewed task)) ts in
  match isMatched with
  | Some isMatched =>
      imap (fun i task =>
              (task, mkTaskNames (requesters !! i) (assisters !! i)
                                 (viewers !! i) (Some (isMatched !! i))))
           ts
  | None =>
      imap (fun i task =>
              (task, mkTaskNames (requesters !! i) (assisters !! i)
                                 (viewers !! i) None))
           ts
  end.

End Responses.

(** ** A concrete instance: identifiers that are their own string *)

#[export] Instance string_Identifier : Identifier string := fun x => x.

(** The scenario's task, created in the empty store by requester R. *)
Definition fixSink : gmap string (@TaskDoc string) :=
  (create "T" "R" "Fix sink" "The sink leaks." 1735689600000%Z None ∅).2.

(** A raw update that writes an array holding the same user twice. *)
Definition twiceA : list string := ["A"; "A"].

Definition assistersTwice : gmap string (@TaskDoc string) :=
  (update "T" (assistersUpdate twiceA) fixSink).2.

Definition viewedTwice : gmap string (@TaskDoc string) :=
  (update "T" (viewedUpdate twiceA) fixSink).2.

(** The task after A completed it. *)
Definition fixSinkDone : gmap string (@TaskDoc string) :=
  (complete 1735700000000%Z "T" (Some "A") fixSink).2.

(** The task after A offered help. *)
Definition fixSinkOffered : gmap string (@TaskDoc string) :=
  (offerHelp "A" "T" fixSink).2.

(** An update of the title alone, and one that also names the requester. *)
Definition newTitle : @PartialTaskDoc string :=
  mkPartial None (Some "new") None None None None None None None None.

Definition newRequester : @PartialTaskDoc string :=
  mkPartial (Some "X") (Some "new") None None None None None None None None.

Definition reopen : @PartialTaskDoc string :=
  mkPartial None None None None None None None (Some false) None None.

(** A second task of R, due earlier, beside the task A offered help on. *)
Definition twoTasks : gmap string (@TaskDoc string) :=
  (create "S" "R" "Mow lawn" "" 1700000000000%Z None fixSinkOffered).2.

(** Users shown by their identifier after an at sign. *)
Definition atNames (ids : list string) : list string :=
  map (fun id => "@" +:+ id) ids.

(** Friend requests and messages as pairs of the sender and the receiver. *)
Definition threeRequests : list (string * string) :=
  [("A", "B"); ("C", "A"); ("B", "C")].

(** * Properties *)

Section Properties.

Context {ObjectId : Type} `{Identifier ObjectId}.

Implicit Types (s : gmap string (@TaskDoc ObjectId)) (d : @TaskDoc ObjectId).
Implicit Types (a id : ObjectId) (l : list ObjectId).

(** *** Arrays of strings *)

Lemma includes_true (ls : list string) (x : string) :
  includes ls x = true ↔ x ∈ ls.
Proof. apply bool_decide_eq_true. Qed.

Lemma includes_false (ls : list string) (x : string) :
  includes ls x = false ↔ x ∉ ls.
Proof. apply bool_decide_eq_false. Qed.

Lemma includes_memberOf a l :
  includes (map strToString (map toString l)) (toString a) = true ↔ memberOf a l.
Proof.
  unfold memberOf. rewrite includes_true.
  replace (map strToString (map toString l)) with (map toString l); [done|].
  symmetry. apply map_id.
Qed.

Lemma memberOf_nil a : ¬ memberOf a [].
Proof. unfold memberOf. simpl. apply not_elem_of_nil. Qed.

Lemma memberOf_cons a x l :
  memberOf a (x :: l) ↔ toString x = toString a ∨ memberOf a l.
Proof.
  unfold memberOf. simpl. rewrite elem_of_cons. split; intros [?|?]; auto.
Qed.

Lemma memberOf_app a l1 l2 :
  memberOf a (l1 ++ l2) ↔ memberOf a l1 ∨ memberOf a l2.
Proof. unfold memberOf. rewrite map_app. apply elem_of_app. Qed.

Lemma memberOf_self a : memberOf a [a].
Proof. apply memberOf_cons. by left. Qed.

Lemma occurrences_cons a x l :
  occurrences a (x :: l) =
  (if decide (toString x = toString a) then 1 else 0) + occurrences a l.
Proof.
  unfold occurrences. rewrite filter_cons. by destruct decide.
Qed.

Lemma occurrences_app a l1 l2 :
  occurrences a (l1 ++ l2) = occurrences a l1 + occurrences a l2.
Proof. unfold occurrences. by rewrite filter_app, length_app. Qed.

Lemma occurrences_0 a l : occurrences a l = 0 ↔ ¬ memberOf a l.
Proof.
  induction l as [|x l IH].
  - split; [intros _; apply memberOf_nil | done].
  - rewrite occurrences_cons, memberOf_cons. destruct decide; simpl.
    + split; [lia | intros []; by left].
    + rewrite IH. tauto.
Qed.

Lemma occurrences_pos a l : 0 < occurrences a l ↔ memberOf a l.
Proof.
  destruct (decide (occurrences a l = 0)) as [E|E].
  - split; [lia|]. intros. by apply occurrences_0 in E.
  - split; [|lia]. intros _.
    destruct (decide (toString a ∈ map toString l)) as [|N]; [done|].
    by apply occurrences_0 in N.
Qed.

(** [indexOf] finds the first entry with the string looked for, and
    [splice1] at that index takes out that entry alone. *)
Lemma indexOf_None l a :
  indexOf (map toString l) (toString a) = None ↔ ¬ memberOf a l.
Proof.
  induction l as [|x l IH]; simpl.
  - split; [intros _; apply memberOf_nil | done].
  - rewrite memberOf_cons. destruct decide as [E|E].
    + split; [done | intros []; by left].
    + rewrite fmap_None, IH. tauto.
Qed.

Lemma indexOf_Some l a (i : nat) :
  indexOf (map toString l) (toString a) = Some i →
  ∃ l1 x l2, l = l1 ++ x :: l2 ∧ toString x = toString a ∧
             ¬ memberOf a l1 ∧ splice1 l i = l1 ++ l2.
Proof.
  revert i. induction l as [|x l IH]; intros i; simpl; [done|].
  destruct decide as [E|E].
  - intros [= <-]. exists [], x, l. split_and!; auto using memberOf_nil.
  - intros Hi. apply fmap_Some in Hi as (j & Hj & ->).
    destruct (IH j Hj) as (l1 & y & l2 & -> & Hy & Hl1 & Hsp).
    exists (x :: l1), y, l2. split_and!; auto.
    + rewrite memberOf_cons. tauto.
    + unfold splice1 in *. simpl. by f_equal.
Qed.

(** *** The guards and the operations, by the document they find *)

Lemma isNotRequester_eq a id s :
  isNotRequester a id s =
  match s !! toString id with
  | None => (inl (doesNotExist id), s)
  | Some d =>
      if decide (toString (requester d) = toString a)
      then (inl (NotAllowedError "Person is the requester."), s)
      else (inr (), s)
  end.
Proof.
  unfold isNotRequester, bind, readOne.
  destruct (s !! toString id); [destruct decide|]; reflexivity.
Qed.

Lemma isNotAssister_eq a id s :
  isNotAssister a id s =
  match s !! toString id with
  | None => (inl (doesNotExist id), s)
  | Some d =>
      if decide (memberOf a (assisters d))
      then (inl (NotAllowedError "Person is already an assister."), s)
      else (inr (), s)
  end.
Proof.
  unfold isNotAssister, bind, readOne.
  destruct (s !! toString id) as [d|]; [|reflexivity].
  destruct (includes _ _) eqn:E; destruct decide as [Hm|Hm]; try reflexivity.
  - apply includes_memberOf in E. done.
  - apply includes_memberOf in Hm. congruence.
Qed.

Lemma isAssister_eq a id s :
  isAssister a id s =
  match s !! toString id with
  | None => (inl (doesNotExist id), s)
  | Some d =>
      if decide (memberOf a (assisters d))
      then (inr (), s)
      else (inl (NotAllowedError "Person is not an assister."), s)
  end.
Proof.
  unfold isAssister, bind, readOne.
  destruct (s !! toString id) as [d|]; [|reflexivity].
  destruct (includes _ _) eqn:E; destruct decide as [Hm|Hm]; try reflexivity.
  - apply includes_memberOf in E. done.
  - apply includes_memberOf in Hm. congruence.
Qed.

Lemma offerHelp_eq a id s :
  offerHelp a id s =
  match s !! toString id with
  | None => (inl (doesNotExist id), s)
  | Some d =>
      if decide (toString (requester d) = toString a)
      then (inl (NotAllowedError "Person is the requester."), s)
      else if decide (memberOf a (assisters d))
      then (inl (NotAllowedError "Person is already an assister."), s)
      else (inr (mkAck "Successfully offered help."),
            alter (applyUpdate (assistersUpdate (assisters d ++ [a])))
                  (toString id) s)
  end.
Proof.
  unfold offerHelp, bind.
  rewrite isNotRequester_eq.
  destruct (s !! toString id) as [d|] eqn:E; [|reflexivity].
  destruct decide; [reflexivity|].
  rewrite isNotAssister_eq, E.
  destruct decide; [reflexivity|].
  unfold readOne. rewrite E. reflexivity.
Qed.

Lemma retractHelp_eq a id s :
  retractHelp a id s =
  match s !! toString id with
  | None => (inl (doesNotExist id), s)
  | Some d =>
      if decide (toString (requester d) = toString a)
      then (inl (NotAllowedError "Person is the requester."), s)
      else if decide (memberOf a (assisters d))
      then (inr (mkAck "Successfully retracted help offer."),
            alter (applyUpdate (assistersUpdate
                     match indexOf (map toString (assisters d)) (toString a) with
                     | Some index => splice1 (assisters d) index
                     | None => assisters d
                     end))
                  (toString id) s)
      else (inl (NotAllowedError "Person is not an assister."), s)
  end.
Proof.
  unfold retractHelp, bind.
  rewrite isNotRequester_eq.
  destruct (s !! toString id) as [d|] eqn:E; [|reflexivity].
  destruct decide; [reflexivity|].
  rewrite isAssister_eq, E.
  destruct decide; [|reflexivity].
  unfold readOne. rewrite E. reflexivity.
Qed.

Lemma complete_eq now id (assister : option ObjectId) s :
  complete now id assister s =
  match s !! toString id with
  | None => (inl (doesNotExist id), s)
  | Some _ =>
      (inr (mkAck "Successfully completed task."),
       alter (applyUpdate (completeUpdate now assister)) (toString id) s)
  end.
Proof.
  unfold complete, bind, readOne.
  destruct (s !! toString id); reflexivity.
Qed.

Lemma view_eq a id s :
  view a id s =
  match s !! toString id with
  | None => (inl (doesNotExist id), s)
  | Some d =>
      (inr (mkAck "Successfully viewed task."),
       if decide (memberOf a (viewed d)) then s
       else alter (applyUpdate (viewedUpdate (viewed d ++ [a]))) (toString id) s)
  end.
Proof.
  unfold view, bind, readOne.
  destruct (s !! toString id) as [d|]; [|reflexivity].
  destruct (includes _ _) eqn:E; destruct decide as [Hm|Hm]; try reflexivity.
  - apply includes_true in E. done.
  - apply includes_true in Hm. congruence.
Qed.

Lemma sanitizeKeys_requester (ks : list string) s :
  sanitizeKeys (ObjectId:=ObjectId) ks s =
  if decide ("requester" ∈ ks)
  then (inl (NotAllowedError "Cannot update 'requester' field!"), s)
  else (inr (), s).
Proof.
  induction ks as [|key ks IH].
  - reflexivity.
  - cbn [sanitizeKeys]. destruct (includes prohibitedUpdates key) eqn:E.
    + apply includes_true, list_elem_of_singleton in E. subst key.
      rewrite decide_True; [reflexivity | left].
    + apply includes_false in E. rewrite IH.
      assert (key ≠ "requester")
        by (intros ->; apply E, list_elem_of_singleton; reflexivity).
      destruct (decide ("requester" ∈ ks)) as [Hin|Hin].
      * rewrite decide_True; [reflexivity | by right].
      * rewrite decide_False; [reflexivity|].
        intros [?|?]%elem_of_cons; congruence.
Qed.

Lemma requester_in_keys (u : @PartialTaskDoc ObjectId) :
  "requester" ∈ keys u ↔ is_Some (p_requester u).
Proof.
  unfold keys, key_of.
  destruct u as [r t de dl f a v c cd cr]; simpl.
  destruct r, t, de, dl, f, a, v, c, cd, cr; simpl;
    (split; [intros Hin | intros Hs]);
    try (eexists; reflexivity);
    try (left; fail);
    try (by destruct Hs);
    repeat (apply elem_of_cons in Hin as [Hin|Hin]; [discriminate|]);
    by apply elem_of_nil in Hin.
Qed.

Lemma sanitizeUpdate_eq (u : @PartialTaskDoc ObjectId) s :
  sanitizeUpdate u s =
  match p_requester u with
  | Some _ => (inl (NotAllowedError "Cannot update 'requester' field!"), s)
  | None => (inr (), s)
  end.
Proof.
  unfold sanitizeUpdate. rewrite sanitizeKeys_requester.
  destruct decide as [Hin|Hin]; rewrite requester_in_keys in Hin.
  - by destruct Hin as [r ->].
  - destruct (p_requester u); [|reflexivity]. exfalso. eauto.
Qed.

Lemma update_eq id (u : @PartialTaskDoc ObjectId) s :
  update id u s =
  match p_requester u with
  | Some _ => (inl (NotAllowedError "Cannot update 'requester' field!"), s)
  | None => (inr (mkAck "Task successfully updated!"),
             alter (applyUpdate u) (toString id) s)
  end.
Proof.
  unfold update, bind. rewrite sanitizeUpdate_eq.
  destruct (p_requester u); reflexivity.
Qed.

Lemma delete_eq id s :
  delete_ id s =
  (inr (mkAck "Task deleted successfully!"), delete (toString id) s).
Proof. reflexivity. Qed.

Lemma create_eq newId r t de (dl : Date) (fs : option (list string)) s :
  create newId r t de dl fs s =
  match s !! toString newId with
  | Some _ => (inl DuplicateKeyError, s)
  | None =>
      let doc :=
        mkTaskDoc newId r t de dl (default [] fs) [] [] false None None in
      (inr (mkCreated "Task successfully created!" newId (Some doc)),
       <[toString newId := doc]> s)
  end.
Proof.
  unfold create, bind, createOne, readOne.
  destruct (s !! toString newId); [reflexivity|].
  simpl. by rewrite lookup_insert_eq.
Qed.

(** *** What the concept guarantees *)

(** C1: whenever [offerHelp a id] returns, the task exists, its stored
    [assisters] afterwards is the former array with [a] appended at the end
    (so [a] is a member, by string form), no other task has changed, and
    [offerHelp a id] on the resulting store throws NotAllowed. *)
Theorem offerHelp_appends_then_refuses a id s ack s' :
  offerHelp a id s = (inr ack, s') →
  ∃ d d',
    s !! toString id = Some d ∧
    s' !! toString id = Some d' ∧
    assisters d' = assisters d ++ [a] ∧
    memberOf a (assisters d') ∧
    (∀ k, k ≠ toString id → s' !! k = s !! k) ∧
    offerHelp a id s' =
      (inl (NotAllowedError "Person is already an assister."), s').
Proof.
  rewrite offerHelp_eq.
  destruct (s !! toString id) as [d|] eqn:E; [|discriminate].
  destruct decide as [|Hr]; [discriminate|].
  destruct decide as [|Hm]; [discriminate|].
  intros [= <- <-].
  set (d' := applyUpdate (assistersUpdate (assisters d ++ [a])) d).
  assert (Hs' : alter (applyUpdate (assistersUpdate (assisters d ++ [a])))
                  (toString id) s !! toString id = Some d')
    by (by rewrite lookup_alter_eq, E).
  assert (Hin : memberOf a (assisters d'))
    by (apply memberOf_app; right; apply memberOf_self).
  exists d, d'. split_and!; auto.
  - intros k Hk. by rewrite lookup_alter_ne.
  - rewrite offerHelp_eq, Hs'.
    rewrite decide_False by exact Hr.
    by rewrite decide_True.
Qed.

(** C8: on an existing task, [offerHelp] by a caller whose string form is
    the requester's throws NotAllowed and writes nothing, whatever else the
    task holds. *)
Theorem offerHelp_requester_refused a id s d :
  s !! toString id = Some d →
  toString a = toString (requester d) →
  offerHelp a id s = (inl (NotAllowedError "Person is the requester."), s).
Proof.
  intros E Ha. rewrite offerHelp_eq, E. by rewrite decide_True.
Qed.

(** C3, amended: on an id that resolves to no task, [offerHelp],
    [retractHelp], [complete] and [view] throw NotFound and write nothing;
    [update] (of a partial without [requester]) and [delete] do not look
    the task up: they return their acknowledgment, and the store is as it
    was. *)
Theorem absent_task_NotFound id s :
  s !! toString id = None →
  let notFound : Error :=
    NotFoundError ("Task " +:+ toString id +:+ " does not exist!") in
  (∀ a, offerHelp a id s = (inl notFound, s)) ∧
  (∀ a, retractHelp a id s = (inl notFound, s)) ∧
  (∀ now (c : option ObjectId), complete now id c s = (inl notFound, s)) ∧
  (∀ a, view a id s = (inl notFound, s)) ∧
  (∀ u, p_requester u = None →
        update id u s = (inr (mkAck "Task successfully updated!"), s)) ∧
  delete_ id s = (inr (mkAck "Task deleted successfully!"), s).
Proof.
  intros E notFound. split_and!; intros.
  - by rewrite offerHelp_eq, E.
  - by rewrite retractHelp_eq, E.
  - by rewrite complete_eq, E.
  - by rewrite view_eq, E.
  - rewrite update_eq. destruct (p_requester u); [done|].
    by rewrite alter_id'.
  - rewrite delete_eq. by rewrite delete_id.
Qed.

(** C9: given an identifier not yet in use, [create] returns the message,
    that identifier and the task read back, which has the given requester,
    title, description, deadline and files (none when the argument is left
    out), no assisters, no viewers, [completed] false and no completion date
    nor completer; the store gains that task. *)
Theorem create_fresh_task
    newId r t de (dl : Date) (fs : option (list string)) s :
  s !! toString newId = None →
  let task := {| _id := newId; requester := r; title := t;
                 description := de; deadline := dl; files := default [] fs;
                 assisters := []; viewed := []; completed := false;
                 completionDate := None; completer := None |} in
  create newId r t de dl fs s =
    (inr (mkCreated "Task successfully created!" newId (Some task)),
     <[toString newId := task]> s).
Proof. intros E task. by rewrite create_eq, E. Qed.

(** C10: [delete] makes no check: for every id and store it returns its
    acknowledgment and leaves the store without a document under the id;
    [getTaskById] on that store throws NotFound. *)
Theorem delete_then_NotFound id s :
  delete_ id s =
    (inr (mkAck "Task deleted successfully!"), delete (toString id) s) ∧
  getTaskById id (delete_ id s).2 =
    (inl (NotFoundError "Task not found!"), delete (toString id) s).
Proof.
  split; [reflexivity|].
  unfold getTaskById, bind, readOne. simpl.
  by rewrite lookup_delete_eq.
Qed.

(** C5: on an existing task, whatever its state and whoever the completer,
    [complete] returns its acknowledgment and leaves the task with
    [completed] true, [completionDate] the time of the call and [completer]
    the argument given (possibly none); a further [complete] is accepted the
    same way and overwrites the date and the completer. *)
Theorem complete_unconditional now id (c : option ObjectId) s d :
  s !! toString id = Some d →
  ∃ s' d',
    complete now id c s = (inr (mkAck "Successfully completed task."), s') ∧
    s' !! toString id = Some d' ∧
    completed d' = true ∧ completionDate d' = Some now ∧ completer d' = c ∧
    ∀ now2 (c2 : option ObjectId), ∃ s'' d'',
      complete now2 id c2 s' =
        (inr (mkAck "Successfully completed task."), s'') ∧
      s'' !! toString id = Some d'' ∧
      completed d'' = true ∧ completionDate d'' = Some now2 ∧
      completer d'' = c2.
Proof.
  assert (Hone : ∀ now1 (c1 : option ObjectId) s1 d1,
            s1 !! toString id = Some d1 →
            ∃ s' d',
              complete now1 id c1 s1 =
                (inr (mkAck "Successfully completed task."), s') ∧
              s' !! toString id = Some d' ∧
              completed d' = true ∧ completionDate d' = Some now1 ∧
              completer d' = c1).
  { intros now1 c1 s1 d1 E. rewrite complete_eq, E.
    eexists _, _. split; [reflexivity|].
    rewrite lookup_alter_eq, E. simpl. auto. }
  intros E. destruct (Hone now c s d E) as (s' & d' & Hc & Hs' & ? & ? & ?).
  exists s', d'. split_and!; auto.
  intros now2 c2. exact (Hone now2 c2 s' d' Hs').
Qed.

(** C6: on an existing task, an [update] whose partial holds [requester]
    throws NotAllowed and leaves the store as it was; an [update] whose
    partial does not hold it returns its acknowledgment, leaves [requester]
    (and [_id]) unchanged, gives every field the partial holds the partial's
    value, keeps the other fields, and touches no other task. *)
Theorem update_guards_requester id (u : @PartialTaskDoc ObjectId) s d :
  s !! toString id = Some d →
  match p_requester u with
  | Some _ =>
      update id u s =
        (inl (NotAllowedError "Cannot update 'requester' field!"), s)
  | None =>
      ∃ s' d',
        update id u s = (inr (mkAck "Task successfully updated!"), s') ∧
        s' !! toString id = Some d' ∧
        (∀ k, k ≠ toString id → s' !! k = s !! k) ∧
        requester d' = requester d ∧
        _id d' = _id d ∧
        title d' = default (title d) (p_title u) ∧
        description d' = default (description d) (p_description u) ∧
        deadline d' = default (deadline d) (p_deadline u) ∧
        files d' = default (files d) (p_files u) ∧
        assisters d' = default (assisters d) (p_assisters u) ∧
        viewed d' = default (viewed d) (p_viewed u) ∧
        completed d' = default (completed d) (p_completed u) ∧
        completionDate d' = default (completionDate d) (p_completionDate u) ∧
        completer d' = default (completer d) (p_completer u)
  end.
Proof.
  intros E. rewrite update_eq.
  destruct (p_requester u) eqn:Er; [reflexivity|].
  eexists _, (applyUpdate u d). split; [reflexivity|].
  split; [by rewrite lookup_alter_eq, E|].
  split; [intros k Hk; by rewrite lookup_alter_ne|].
  unfold applyUpdate; simpl. rewrite Er. split_and!; reflexivity.
Qed.

(** C2, amended: on an existing task and for a user who is not its
    requester, [retractHelp] returns iff the user is a member of [assisters]
    (by string form) and throws NotAllowed otherwise; when it returns, the
    first entry with the user's string form is taken out of the stored array
    and every other entry stays, in order; the user is no longer a member
    provided the array held the user no more than once. *)
Theorem retractHelp_removes_first a id s d :
  s !! toString id = Some d →
  toString (requester d) ≠ toString a →
  ((∃ ack s', retractHelp a id s = (inr ack, s')) ↔
     memberOf a (assisters d)) ∧
  (¬ memberOf a (assisters d) →
     retractHelp a id s =
       (inl (NotAllowedError "Person is not an assister."), s)) ∧
  (∀ ack s', retractHelp a id s = (inr ack, s') →
     ∃ l1 x l2 d',
       assisters d = l1 ++ x :: l2 ∧
       toString x = toString a ∧ ¬ memberOf a l1 ∧
       s' !! toString id = Some d' ∧
       assisters d' = l1 ++ l2 ∧
       (∀ k, k ≠ toString id → s' !! k = s !! k) ∧
       ((occurrences a (assisters d) ≤ 1)%nat → ¬ memberOf a (assisters d'))).
Proof.
  intros E Hr. rewrite retractHelp_eq, E.
  rewrite decide_False by exact Hr.
  destruct (decide (memberOf a (assisters d))) as [Hm|Hm].
  - split; [split; eauto|]. split; [done|].
    intros ack s' [= <- <-].
    destruct (indexOf (map toString (assisters d)) (toString a))
      as [i|] eqn:Ei; [|by apply indexOf_None in Ei].
    destruct (indexOf_Some _ _ _ Ei) as (l1 & x & l2 & Hl & Hx & Hl1 & Hsp).
    exists l1, x, l2, (applyUpdate (assistersUpdate (l1 ++ l2)) d).
    rewrite Hsp. split_and!; auto.
    + by rewrite lookup_alter_eq, E.
    + intros k Hk. by rewrite lookup_alter_ne.
    + rewrite Hl, occurrences_app, occurrences_cons.
      rewrite decide_True by exact Hx. intros Hle. simpl.
      rewrite memberOf_app. intros [?|Hl2]; [done|].
      apply occurrences_pos in Hl2. lia.
  - split; [split; [intros (? & ? & [=]) | done]|].
    split; [done|]. intros ? ? [=].
Qed.

(** C7, amended: on an existing task, two [view]s by the same user both
    return; the first leaves [viewed] as it was when the user is already a
    member (it then writes nothing) and appends the user otherwise; the second
    changes nothing; no entry is ever removed; and afterwards [viewed] holds
    the user exactly once provided it did not hold the user more than once
    before. *)
Theorem view_twice a id s d :
  s !! toString id = Some d →
  ∃ s1 d1,
    view a id s = (inr (mkAck "Successfully viewed task."), s1) ∧
    view a id s1 = (inr (mkAck "Successfully viewed task."), s1) ∧
    s1 !! toString id = Some d1 ∧
    viewed d1 =
      (if decide (memberOf a (viewed d)) then viewed d else viewed d ++ [a]) ∧
    viewed d `prefix_of` viewed d1 ∧
    (memberOf a (viewed d) → s1 = s) ∧
    ((occurrences a (viewed d) ≤ 1)%nat → occurrences a (viewed d1) = 1).
Proof.
  intros E. rewrite view_eq, E.
  destruct (decide (memberOf a (viewed d))) as [Hm|Hm].
  - exists s, d. rewrite view_eq, E. rewrite decide_True by exact Hm.
    split_and!; auto.
    apply occurrences_pos in Hm. lia.
  - set (d1 := applyUpdate (viewedUpdate (viewed d ++ [a])) d).
    assert (E1 : alter (applyUpdate (viewedUpdate (viewed d ++ [a])))
                   (toString id) s !! toString id = Some d1)
      by (by rewrite lookup_alter_eq, E).
    eexists _, d1. split; [reflexivity|].
    rewrite view_eq, E1.
    rewrite decide_True by (apply memberOf_app; right; apply memberOf_self).
    split_and!; auto.
    + by apply prefix_app_r.
    + done.
    + intros _. simpl. rewrite occurrences_app, occurrences_cons.
      rewrite decide_True by reflexivity.
      apply occurrences_0 in Hm. rewrite Hm. reflexivity.
Qed.

(** How a write of [updateOne] bears on [completed]. *)
Lemma alter_keeps_completed (u : @PartialTaskDoc ObjectId) (k' k : string) s d :
  s !! k = Some d → completed d = true →
  p_completed u ≠ Some false →
  ∃ d', alter (applyUpdate u) k' s !! k = Some d' ∧ completed d' = true.
Proof.
  intros E Hc Hu. destruct (decide (k' = k)) as [->|Hk].
  - exists (applyUpdate u d). rewrite lookup_alter_eq, E. split; [done|].
    simpl. destruct (p_completed u) as [[]|]; simpl; congruence.
  - exists d. by rewrite lookup_alter_ne.
Qed.

(** C4, amended: a task whose [completed] is true still has it true after
    any one call of the concept other than a raw [update] whose partial holds
    [completed: false]; the task is gone only after its [delete]. *)
Theorem completed_kept (op : Op) s (k : string) d :
  s !! k = Some d →
  completed d = true →
  reopens op = false →
  match exec op s !! k with
  | Some d' => completed d' = true
  | None => ∃ id, op = OpDelete id ∧ toString id = k
  end.
Proof.
  intros E Hc Hop.
  assert (Hkeep : ∀ (u : @PartialTaskDoc ObjectId) k',
            p_completed u ≠ Some false →
            match alter (applyUpdate u) k' s !! k with
            | Some d' => completed d' = true
            | None => ∃ id, op = OpDelete id ∧ toString id = k
            end).
  { intros u k' Hu.
    destruct (alter_keeps_completed u k' k s d E Hc Hu) as (d' & -> & ?).
    done. }
  assert (Hsame : match s !! k with
                  | Some d' => completed d' = true
                  | None => ∃ id, op = OpDelete id ∧ toString id = k
                  end) by (by rewrite E).
  destruct op as [newId r t de dl fs | id u | id | a id | a id | now id c | a id];
    simpl in *.
  - rewrite create_eq. destruct (s !! toString newId) eqn:En; [done|].
    simpl. rewrite lookup_insert_ne by congruence. done.
  - rewrite update_eq. destruct (p_requester u); [done|]. simpl.
    apply Hkeep. destruct (p_completed u) as [[]|]; congruence.
  - destruct (decide (toString id = k)) as [Hk|Hk].
    + rewrite Hk, lookup_delete_eq. eauto.
    + rewrite lookup_delete_ne by done. by rewrite E.
  - rewrite offerHelp_eq. destruct (s !! toString id); [|done].
    repeat (destruct decide; [done|]). simpl. by apply Hkeep.
  - rewrite retractHelp_eq. destruct (s !! toString id); [|done].
    destruct decide; [done|]. destruct decide; [|done]. simpl. by apply Hkeep.
  - rewrite complete_eq. destruct (s !! toString id); [|done].
    simpl. by apply Hkeep.
  - rewrite view_eq. destruct (s !! toString id); [|done].
    simpl. destruct decide; [done|]. by apply Hkeep.
Qed.

End Properties.

(** * The properties at the scenario of the specification *)

(** A offers help on the task: the offer is stored and a second one refused. *)
Lemma offerHelp_appends_then_refuses_witness :
  offerHelp "A" "T" fixSink =
    (inr (mkAck "Successfully offered help."), (offerHelp "A" "T" fixSink).2) ∧
  ∃ d d',
    fixSink !! "T" = Some d ∧
    (offerHelp "A" "T" fixSink).2 !! "T" = Some d' ∧
    assisters d' = assisters d ++ ["A"] ∧
    memberOf "A" (assisters d') ∧
    (∀ k, k ≠ "T" → (offerHelp "A" "T" fixSink).2 !! k = fixSink !! k) ∧
    offerHelp "A" "T" (offerHelp "A" "T" fixSink).2 =
      (inl (NotAllowedError "Person is already an assister."),
       (offerHelp "A" "T" fixSink).2).
Proof.
  split; [reflexivity|].
  exact (offerHelp_appends_then_refuses "A" "T" fixSink
           (mkAck "Successfully offered help.") (offerHelp "A" "T" fixSink).2
           eq_refl).
Defined.

(** The requester R may not offer help on R's own task. *)
Lemma offerHelp_requester_refused_witness :
  offerHelp "R" "T" fixSink =
    (inl (NotAllowedError "Person is the requester."), fixSink).
Proof.
  exact (offerHelp_requester_refused "R" "T" fixSink
           (mkTaskDoc "T" "R" "Fix sink" "The sink leaks." 1735689600000%Z
                      [] [] [] false None None)
           eq_refl eq_refl).
Defined.

(** The store holds task T only; U resolves to no task. *)
Lemma absent_task_NotFound_witness :
  (∀ a : string, offerHelp a "U" fixSink =
     (inl (NotFoundError "Task U does not exist!"), fixSink)) ∧
  (∀ a : string, retractHelp a "U" fixSink =
     (inl (NotFoundError "Task U does not exist!"), fixSink)) ∧
  (∀ now (a : option string), complete now "U" a fixSink =
     (inl (NotFoundError "Task U does not exist!"), fixSink)) ∧
  (∀ a : string, view a "U" fixSink =
     (inl (NotFoundError "Task U does not exist!"), fixSink)) ∧
  (∀ u : @PartialTaskDoc string, p_requester u = None →
     update "U" u fixSink = (inr (mkAck "Task successfully updated!"), fixSink)) ∧
  delete_ "U" fixSink = (inr (mkAck "Task deleted successfully!"), fixSink).
Proof.
  exact (absent_task_NotFound "U" fixSink eq_refl).
Defined.

(** Creating the scenario's task in the empty store. *)
Lemma create_fresh_task_witness :
  create "T" "R" "Fix sink" "The sink leaks." 1735689600000%Z None ∅ =
    (inr (mkCreated "Task successfully created!" "T"
            (Some (mkTaskDoc "T" "R" "Fix sink" "The sink leaks."
                             1735689600000%Z [] [] [] false None None))),
     fixSink).
Proof.
  exact (create_fresh_task "T" "R" "Fix sink" "The sink leaks."
           1735689600000%Z None ∅ eq_refl).
Defined.

(** A completes the task without having offered help. *)
Lemma complete_unconditional_witness :
  ∃ s' d',
    complete 1735700000000%Z "T" (Some "A") fixSink =
      (inr (mkAck "Successfully completed task."), s') ∧
    s' !! "T" = Some d' ∧
    completed d' = true ∧ completionDate d' = Some 1735700000000%Z ∧
    completer d' = Some "A" ∧
    ∀ now2 (c2 : option string), ∃ s'' d'',
      complete now2 "T" c2 s' =
        (inr (mkAck "Successfully completed task."), s'') ∧
      s'' !! "T" = Some d'' ∧
      completed d'' = true ∧ completionDate d'' = Some now2 ∧
      completer d'' = c2.
Proof.
  exact (complete_unconditional 1735700000000%Z "T" (Some "A") fixSink
           (mkTaskDoc "T" "R" "Fix sink" "The sink leaks." 1735689600000%Z
                      [] [] [] false None None)
           eq_refl).
Defined.

(** An update naming the requester is refused; one of the title goes through. *)
Lemma update_guards_requester_witness :
  update "T" newRequester fixSink =
    (inl (NotAllowedError "Cannot update 'requester' field!"), fixSink) ∧
  ∃ s' d',
    update "T" newTitle fixSink =
      (inr (mkAck "Task successfully updated!"), s') ∧
    s' !! "T" = Some d' ∧
    (∀ k, k ≠ "T" → s' !! k = fixSink !! k) ∧
    requester d' = "R" ∧
    _id d' = "T" ∧
    title d' = "new" ∧
    description d' = "The sink leaks." ∧
    deadline d' = 1735689600000%Z ∧
    files d' = [] ∧
    assisters d' = [] ∧
    viewed d' = [] ∧
    completed d' = false ∧
    completionDate d' = None ∧
    completer d' = None.
Proof.
  split.
  - exact (update_guards_requester "T" newRequester fixSink
             (mkTaskDoc "T" "R" "Fix sink" "The sink leaks." 1735689600000%Z
                        [] [] [] false None None)
             eq_refl).
  - exact (update_guards_requester "T" newTitle fixSink
             (mkTaskDoc "T" "R" "Fix sink" "The sink leaks." 1735689600000%Z
                        [] [] [] false None None)
             eq_refl).
Defined.

(** A retracts the help offered on the task. *)
Lemma retractHelp_removes_first_witness :
  ((∃ ack s', retractHelp "A" "T" fixSinkOffered = (inr ack, s')) ↔
     memberOf "A" ["A"]) ∧
  (¬ memberOf "A" ["A"] →
     retractHelp "A" "T" fixSinkOffered =
       (inl (NotAllowedError "Person is not an assister."), fixSinkOffered)) ∧
  (∀ ack s', retractHelp "A" "T" fixSinkOffered = (inr ack, s') →
     ∃ l1 x l2 d',
       ["A"] = l1 ++ x :: l2 ∧
       toString x = "A" ∧ ¬ memberOf "A" l1 ∧
       s' !! "T" = Some d' ∧
       assisters d' = l1 ++ l2 ∧
       (∀ k, k ≠ "T" → s' !! k = fixSinkOffered !! k) ∧
       ((occurrences "A" ["A"] ≤ 1)%nat → ¬ memberOf "A" (assisters d'))).
Proof.
  refine (retractHelp_removes_first "A" "T" fixSinkOffered
            (mkTaskDoc "T" "R" "Fix sink" "The sink leaks." 1735689600000%Z
                       [] ["A"] [] false None None)
            eq_refl _).
  discriminate.
Defined.

(** B views the task twice. *)
Lemma view_twice_witness :
  ∃ s1 d1,
    view "B" "T" fixSink = (inr (mkAck "Successfully viewed task."), s1) ∧
    view "B" "T" s1 = (inr (mkAck "Successfully viewed task."), s1) ∧
    s1 !! "T" = Some d1 ∧
    viewed d1 = (if decide (memberOf "B" []) then [] else [] ++ ["B"]) ∧
    [] `prefix_of` viewed d1 ∧
    (memberOf "B" [] → s1 = fixSink) ∧
    ((occurrences "B" [] ≤ 1)%nat → occurrences "B" (viewed d1) = 1).
Proof.
  exact (view_twice "B" "T" fixSink
           (mkTaskDoc "T" "R" "Fix sink" "The sink leaks." 1735689600000%Z
                      [] [] [] false None None)
           eq_refl).
Defined.

(** The completed task stays completed under an update of its title. *)
Lemma completed_kept_witness :
  match exec (OpUpdate "T" newTitle) fixSinkDone !! "T" with
  | Some d' => completed d' = true
  | None => ∃ id, OpUpdate "T" newTitle = OpDelete id ∧ toString id = "T"
  end.
Proof.
  exact (completed_kept (OpUpdate "T" newTitle) fixSinkDone "T"
           (mkTaskDoc "T" "R" "Fix sink" "The sink leaks." 1735689600000%Z
                      [] [] [] true (Some 1735700000000%Z) (Some "A"))
           eq_refl eq_refl eq_refl).
Defined.

(** The scenario of the specification, run from the empty store: R creates
    the task, A offers help, R may not, A retracts, and A completes it. *)
Example scenario_fix_sink :
  let s1 := fixSink in
  let s2 := (offerHelp "A" "T" s1).2 in
  let r3 := (offerHelp "R" "T" s2).1 in
  let s4 := (retractHelp "A" "T" s2).2 in
  let s5 := (complete 1735700000000%Z "T" (Some "A") s4).2 in
  completed <$> s1 !! "T" = Some false ∧
  assisters <$> s2 !! "T" = Some ["A"] ∧
  r3 = inl (NotAllowedError "Person is the requester.") ∧
  assisters <$> s4 !! "T" = Some [] ∧
  s5 !! "T" =
    Some (mkTaskDoc "T" "R" "Fix sink" "The sink leaks." 1735689600000%Z
                    [] [] [] true (Some 1735700000000%Z) (Some "A")).
Proof. repeat split. Qed.

(** * Where the stated properties stop *)

(** C2 as stated fails: after a raw update wrote the same user twice into
    [assisters], [retractHelp] returns and the user is still a member. *)
Lemma retractHelp_leaves_duplicate :
  ¬ (∀ (a id : string) (s : gmap string (@TaskDoc string)) d ack s' d',
       s !! toString id = Some d →
       toString (requester d) ≠ toString a →
       retractHelp a id s = (inr ack, s') →
       s' !! toString id = Some d' →
       ¬ memberOf a (assisters d')).
Proof.
  intros Hc.
  refine (Hc "A" "T" assistersTwice
            (mkTaskDoc "T" "R" "Fix sink" "The sink leaks." 1735689600000%Z
                       [] ["A"; "A"] [] false None None)
            (mkAck "Successfully retracted help offer.")
            (retractHelp "A" "T" assistersTwice).2
            (mkTaskDoc "T" "R" "Fix sink" "The sink leaks." 1735689600000%Z
                       [] ["A"] [] false None None)
            eq_refl _ eq_refl eq_refl _).
  - discriminate.
  - apply memberOf_self.
Qed.

(** C3 as stated fails: [delete] of an id that resolves to no task returns
    its acknowledgment instead of throwing NotFound. *)
Lemma delete_absent_succeeds :
  ¬ (∀ (id : string) (s : gmap string (@TaskDoc string)),
       s !! toString id = None →
       ∃ m s', delete_ id s = (inl (NotFoundError m), s')).
Proof.
  intros Hc. destruct (Hc "U" fixSink eq_refl) as (m & s' & Hd).
  discriminate Hd.
Qed.

(** C4 as stated fails: a raw update holding [completed: false] reopens a
    completed task. *)
Lemma update_reopens_completed :
  ¬ (∀ (op : @Op string) (s : gmap string (@TaskDoc string)) k d d',
       s !! k = Some d →
       completed d = true →
       exec op s !! k = Some d' →
       completed d' = true).
Proof.
  intros Hc.
  pose proof (Hc (OpUpdate "T" reopen) fixSinkDone "T"
                (mkTaskDoc "T" "R" "Fix sink" "The sink leaks."
                           1735689600000%Z [] [] [] true
                           (Some 1735700000000%Z) (Some "A"))
                (mkTaskDoc "T" "R" "Fix sink" "The sink leaks."
                           1735689600000%Z [] [] [] false
                           (Some 1735700000000%Z) (Some "A"))
                eq_refl eq_refl eq_refl) as Hd.
  discriminate Hd.
Qed.

(** C7 as stated fails: after a raw update wrote the same user twice into
    [viewed], two [view]s by that user leave both entries. *)
Lemma view_twice_keeps_duplicate :
  ¬ (∀ (a id : string) (s : gmap string (@TaskDoc string)) d d2,
       s !! toString id = Some d →
       (view a id (view a id s).2).2 !! toString id = Some d2 →
       occurrences a (viewed d2) = 1).
Proof.
  intros Hc.
  pose proof (Hc "A" "T" viewedTwice
                (mkTaskDoc "T" "R" "Fix sink" "The sink leaks."
                           1735689600000%Z [] [] ["A"; "A"] false None None)
                (mkTaskDoc "T" "R" "Fix sink" "The sink leaks."
                           1735689600000%Z [] [] ["A"; "A"] false None None)
                eq_refl eq_refl) as Hd.
  vm_compute in Hd. discriminate Hd.
Qed.

(** * Further properties of the concept *)

Section FurtherProperties.

Context {ObjectId : Type} `{Identifier ObjectId}.

Implicit Types (s : gmap string (@TaskDoc ObjectId)) (d : @TaskDoc ObjectId).
Implicit Types (a b id : ObjectId) (l : list ObjectId).

(** *** The guards on their own *)

Lemma isRequester_eq a id s :
  isRequester a id s =
  match s !! toString id with
  | None => (inl (Thrown (doesNotExist id)), s)
  | Some d =>
      if decide (toString (requester d) = toString a)
      then (inr (), s)
      else (inl (TaskRequesterNotMatchError
                   "{0} is not the host of Task {1}!" a id), s)
  end.
Proof.
  unfold isRequester, readOne.
  destruct (s !! toString id) as [d|]; [|reflexivity].
  destruct (decide (toString (requester d) = toString a)) as [E|E].
  - rewrite decide_False by (intros N; by apply N). reflexivity.
  - rewrite decide_True by exact E. reflexivity.
Qed.

(** X1: on an existing task exactly one of [isRequester] and
    [isNotRequester] passes, decided on the string forms of the caller and of
    the task's requester; the one that fails throws its own error
    ([isRequester] the one that keeps the caller and the task identifier),
    and neither writes. *)
Theorem requester_guards_complement a id s d :
  s !! toString id = Some d →
  if decide (toString (requester d) = toString a)
  then isRequester a id s = (inr (), s) ∧
       isNotRequester a id s =
         (inl (NotAllowedError "Person is the requester."), s)
  else isRequester a id s =
         (inl (TaskRequesterNotMatchError
                 "{0} is not the host of Task {1}!" a id), s) ∧
       isNotRequester a id s = (inr (), s).
Proof.
  intros E. rewrite isRequester_eq, isNotRequester_eq, E.
  destruct decide; split; reflexivity.
Qed.

(** X2: on an existing task exactly one of [isAssister] and [isNotAssister]
    passes, decided by membership of [assisters] on string forms; the other
    throws NotAllowed, and neither writes. *)
Theorem assister_guards_complement a id s d :
  s !! toString id = Some d →
  if decide (memberOf a (assisters d))
  then isAssister a id s = (inr (), s) ∧
       isNotAssister a id s =
         (inl (NotAllowedError "Person is already an assister."), s)
  else isAssister a id s =
         (inl (NotAllowedError "Person is not an assister."), s) ∧
       isNotAssister a id s = (inr (), s).
Proof.
  intros E. rewrite isAssister_eq, isNotAssister_eq, E.
  destruct decide; split; reflexivity.
Qed.

(** X3: on an id that resolves to no task the four guards throw NotFound,
    with the message naming the id, and write nothing. *)
Theorem guards_absent_NotFound a id s :
  s !! toString id = None →
  let notFound : Error :=
    NotFoundError ("Task " +:+ toString id +:+ " does not exist!") in
  isRequester a id s = (inl (Thrown notFound), s) ∧
  isNotRequester a id s = (inl notFound, s) ∧
  isAssister a id s = (inl notFound, s) ∧
  isNotAssister a id s = (inl notFound, s).
Proof.
  intros E notFound.
  rewrite isRequester_eq, isNotRequester_eq, isAssister_eq, isNotAssister_eq.
  rewrite E. done.
Qed.

(** *** Offering and retracting help *)

(** X4: [offerHelp] returns exactly when the task exists, the caller's
    string form differs from the requester's and is not among the
    assisters'; nothing else of the task (completion, views) matters. *)
Theorem offerHelp_returns_iff a id s :
  (∃ ack s', offerHelp a id s = (inr ack, s')) ↔
  ∃ d, s !! toString id = Some d ∧
       toString (requester d) ≠ toString a ∧
       ¬ memberOf a (assisters d).
Proof.
  rewrite offerHelp_eq. destruct (s !! toString id) as [d|].
  - destruct (decide (toString (requester d) = toString a)) as [Hr|Hr];
      [|destruct (decide (memberOf a (assisters d))) as [Hm|Hm]].
    + split; [intros (? & ? & [=]) | intros (d0 & [= <-] & ? & ?); done].
    + split; [intros (? & ? & [=]) | intros (d0 & [= <-] & ? & ?); done].
    + split; eauto.
  - split; [intros (? & ? & [=]) | intros (? & [=] & _)].
Qed.

(** X5: the requester of a task can never retract help on it: the call
    throws NotAllowed as the requester's, and writes nothing, even when a raw
    update has put the requester among the assisters. *)
Theorem retractHelp_requester_refused a id s d :
  s !! toString id = Some d →
  toString a = toString (requester d) →
  retractHelp a id s = (inl (NotAllowedError "Person is the requester."), s).
Proof.
  intros E Ha. rewrite retractHelp_eq, E. by rewrite decide_True.
Qed.

Lemma indexOf_snoc l a :
  ¬ memberOf a l →
  indexOf (map toString (l ++ [a])) (toString a) = Some (length l).
Proof.
  induction l as [|x l IH]; intros Hm; simpl.
  - by rewrite decide_True.
  - rewrite memberOf_cons in Hm.
    rewrite decide_False by tauto. rewrite IH by tauto. reflexivity.
Qed.

Lemma splice1_snoc {A : Type} (xs : list A) (x : A) :
  splice1 (xs ++ [x]) (length xs) = xs.
Proof.
  unfold splice1. induction xs as [|y xs IH]; simpl; [done|]. by f_equal.
Qed.

Lemma applyUpdate_assisters_back d (l' : list ObjectId) :
  applyUpdate (assistersUpdate (assisters d))
    (applyUpdate (assistersUpdate l') d) = d.
Proof. by destruct d. Qed.

(** X6: offering help and then retracting it gives back the store as it
    was: whenever [offerHelp] returns, [retractHelp] by the same user on the
    resulting store returns and restores every task, the array of assisters
    included, entry for entry. *)
Theorem offerHelp_retractHelp_restores a id s ack s' :
  offerHelp a id s = (inr ack, s') →
  retractHelp a id s' =
    (inr (mkAck "Successfully retracted help offer."), s).
Proof.
  rewrite offerHelp_eq.
  destruct (s !! toString id) as [d|] eqn:E; [|discriminate].
  destruct decide as [|Hr]; [discriminate|].
  destruct decide as [|Hm]; [discriminate|].
  intros [= <- <-].
  rewrite retractHelp_eq, lookup_alter_eq, E. simpl.
  rewrite decide_False by exact Hr.
  rewrite decide_True by (apply memberOf_app; right; apply memberOf_self).
  rewrite indexOf_snoc by exact Hm. rewrite splice1_snoc.
  f_equal. apply map_eq. intros k.
  destruct (decide (k = toString id)) as [->|Hk].
  - rewrite !lookup_alter_eq, E. simpl.
    by rewrite applyUpdate_assisters_back.
  - by rewrite !lookup_alter_ne.
Qed.

(** X7: a returning [retractHelp] takes exactly one entry out of the stored
    array: the array is one shorter, holds the user once less and every
    other user as often as before; when it held the user once, a second
    [retractHelp] throws NotAllowed. *)
Theorem retractHelp_removes_one a id s ack s' :
  retractHelp a id s = (inr ack, s') →
  ∃ d d',
    s !! toString id = Some d ∧
    s' !! toString id = Some d' ∧
    length (assisters d) = S (length (assisters d')) ∧
    occurrences a (assisters d) = S (occurrences a (assisters d')) ∧
    (∀ b, toString b ≠ toString a →
          occurrences b (assisters d') = occurrences b (assisters d)) ∧
    (occurrences a (assisters d) = 1 →
     retractHelp a id s' =
       (inl (NotAllowedError "Person is not an assister."), s')).
Proof.
  rewrite retractHelp_eq.
  destruct (s !! toString id) as [d|] eqn:E; [|discriminate].
  destruct decide as [|Hr]; [discriminate|].
  destruct decide as [Hm|]; [|discriminate].
  intros [= <- <-].
  destruct (indexOf (map toString (assisters d)) (toString a))
    as [i|] eqn:Ei; [|by apply indexOf_None in Ei].
  destruct (indexOf_Some _ _ _ Ei) as (l1 & x & l2 & Hl & Hx & Hl1 & Hsp).
  rewrite Hsp.
  set (d' := applyUpdate (assistersUpdate (l1 ++ l2)) d).
  assert (E' : alter (applyUpdate (assistersUpdate (l1 ++ l2)))
                 (toString id) s !! toString id = Some d')
    by (by rewrite lookup_alter_eq, E).
  exists d, d'. split_and!; auto.
  - rewrite Hl. simpl. rewrite !length_app. simpl. lia.
  - rewrite Hl. simpl. rewrite !occurrences_app, occurrences_cons.
    rewrite decide_True by exact Hx. lia.
  - intros b Hb. rewrite Hl. simpl.
    rewrite !occurrences_app, occurrences_cons.
    rewrite decide_False by congruence. lia.
  - rewrite Hl, occurrences_app, occurrences_cons.
    rewrite decide_True by exact Hx. intros Hone.
    rewrite retractHelp_eq, E'. simpl.
    rewrite decide_False by exact Hr.
    rewrite decide_False; [reflexivity|].
    intros Hin. apply occurrences_pos in Hin.
    rewrite occurrences_app in Hin. lia.
Qed.

(** X8: help offered by two users one after the other is recorded in the
    order of the offers: when the first offer returns and the second user is
    another one, neither the requester nor an assister yet, the second offer
    returns too and the stored array is the former one followed by the first
    and then the second user. *)
Theorem offerHelp_in_order a b id s d ack s1 :
  s !! toString id = Some d →
  offerHelp a id s = (inr ack, s1) →
  toString b ≠ toString a →
  toString (requester d) ≠ toString b →
  ¬ memberOf b (assisters d) →
  ∃ s2 d2,
    offerHelp b id s1 = (inr (mkAck "Successfully offered help."), s2) ∧
    s2 !! toString id = Some d2 ∧
    assisters d2 = assisters d ++ [a; b].
Proof.
  intros E. rewrite offerHelp_eq, E.
  destruct decide as [|Hr]; [discriminate|].
  destruct decide as [|Hm]; [discriminate|].
  intros [= <- <-] Hba Hrb Hmb.
  rewrite offerHelp_eq, lookup_alter_eq, E. simpl.
  rewrite decide_False by exact Hrb.
  rewrite decide_False.
  - eexists _, _. split; [reflexivity|].
    rewrite lookup_alter_eq, lookup_alter_eq, E. simpl.
    split; [reflexivity|]. simpl. by rewrite <- app_assoc.
  - rewrite memberOf_app, memberOf_cons. intros [?|[?|?%memberOf_nil]]; auto.
Qed.

(** *** One call, seen from the store *)

Lemma alter_lookup_inv (f : @TaskDoc ObjectId → @TaskDoc ObjectId)
    (k' k : string) s d' :
  alter f k' s !! k = Some d' →
  s !! k = Some d' ∨ ∃ d, s !! k = Some d ∧ k = k' ∧ d' = f d.
Proof.
  destruct (decide (k' = k)) as [->|Hk].
  - rewrite lookup_alter_eq. destruct (s !! k) as [d|]; [|discriminate].
    intros [= <-]. right. eauto.
  - rewrite lookup_alter_ne by done. auto.
Qed.

(** Where a document of the store a call leaves comes from: it was there,
    or it is the task the call is about after the one write of the call, or
    it is the task [create] made. *)
Lemma exec_lookup_inv (op : Op) s (k : string) d' :
  exec op s !! k = Some d' →
  s !! k = Some d' ∨
  (∃ d u, s !! k = Some d ∧ k = toString (target op) ∧
          d' = applyUpdate u d ∧
          match op with
          | OpUpdate _ u' => u = u' ∧ p_requester u' = None
          | OpOfferHelp a _ =>
              u = assistersUpdate (assisters d ++ [a]) ∧
              toString (requester d) ≠ toString a ∧
              ¬ memberOf a (assisters d)
          | OpRetractHelp a _ =>
              ∃ l1 x l2, assisters d = l1 ++ x :: l2 ∧
                         u = assistersUpdate (l1 ++ l2)
          | OpComplete now _ c => u = completeUpdate now c
          | OpView a _ =>
              u = viewedUpdate (viewed d ++ [a]) ∧ ¬ memberOf a (viewed d)
          | _ => False
          end) ∨
  (s !! k = None ∧
   ∃ newId r t de dl fs,
     op = OpCreate newId r t de dl fs ∧ k = toString newId ∧
     d' = mkTaskDoc newId r t de dl (default [] fs) [] [] false None None).
Proof.
  destruct op as [newId r t de dl fs | id u | id | a id | a id | now id c | a id];
    simpl.
  - rewrite create_eq. destruct (s !! toString newId) eqn:En; simpl; [auto|].
    destruct (decide (toString newId = k)) as [<-|Hk].
    + rewrite lookup_insert_eq. intros [= <-]. right. right.
      split; [done|]. by eexists _, _, _, _, _, _.
    + rewrite lookup_insert_ne by done. auto.
  - rewrite update_eq. destruct (p_requester u) eqn:Er; simpl; [auto|].
    intros [?|(d & E & -> & ->)]%alter_lookup_inv; [auto|].
    right. left. by exists d, u.
  - intros [_ ?]%lookup_delete_Some. auto.
  - rewrite offerHelp_eq. destruct (s !! toString id) as [d0|] eqn:E0; [|auto].
    destruct decide as [|Hr]; [auto|]. destruct decide as [|Hm]; [auto|].
    simpl. intros [?|(d & E & -> & ->)]%alter_lookup_inv; [auto|].
    assert (d0 = d) as -> by congruence.
    right. left. by eexists d, _.
  - rewrite retractHelp_eq.
    destruct (s !! toString id) as [d0|] eqn:E0; [|auto].
    destruct decide as [|Hr]; [auto|]. destruct decide as [Hm|]; [|auto].
    simpl. intros [?|(d & E & -> & ->)]%alter_lookup_inv; [auto|].
    assert (d0 = d) as -> by congruence.
    destruct (indexOf (map toString (assisters d)) (toString a))
      as [i|] eqn:Ei; [|by apply indexOf_None in Ei].
    destruct (indexOf_Some _ _ _ Ei) as (l1 & x & l2 & Hl & _ & _ & ->).
    right. left. eexists d, _. split_and!; eauto.
  - rewrite complete_eq. destruct (s !! toString id) as [d0|] eqn:E0; [|auto].
    simpl. intros [?|(d & E & -> & ->)]%alter_lookup_inv; [auto|].
    right. left. by eexists d, _.
  - rewrite view_eq. destruct (s !! toString id) as [d0|] eqn:E0; [|auto].
    simpl. destruct decide as [|Hm]; [auto|].
    intros [?|(d & E & -> & ->)]%alter_lookup_inv; [auto|].
    assert (d0 = d) as -> by congruence.
    right. left. by eexists d, _.
Qed.

(** X9: a call that throws has written nothing: whichever the call and the
    error, the store is the one the call was made on. *)
Theorem thrown_writes_nothing (op : Op) s (e : Error) :
  outcome op s = Some e → exec op s = s.
Proof.
  destruct op as [newId r t de dl fs | id u | id | a id | a id | now id c | a id];
    unfold outcome, thrown, exec.
  - rewrite create_eq. by destruct (s !! toString newId).
  - rewrite update_eq. by destruct (p_requester u).
  - by rewrite delete_eq.
  - rewrite offerHelp_eq. destruct (s !! toString id); [|done].
    by repeat (destruct decide; [done|]).
  - rewrite retractHelp_eq. destruct (s !! toString id); [|done].
    destruct decide; [done|]. by destruct decide.
  - rewrite complete_eq. by destruct (s !! toString id).
  - rewrite view_eq. by destruct (s !! toString id).
Qed.

(** X10: a call touches no task but the one it is about: under every key
    other than the string of its task identifier the store holds what it
    held. *)
Theorem other_tasks_untouched (op : Op) s (k : string) :
  k ≠ toString (target op) → exec op s !! k = s !! k.
Proof.
  intros Hk.
  destruct op as [newId r t de dl fs | id u | id | a id | a id | now id c | a id];
    simpl in *.
  - rewrite create_eq. destruct (s !! toString newId); [done|].
    simpl. by rewrite lookup_insert_ne.
  - rewrite update_eq. destruct (p_requester u); [done|].
    simpl. by rewrite lookup_alter_ne.
  - by rewrite lookup_delete_ne.
  - rewrite offerHelp_eq. destruct (s !! toString id); [|done].
    repeat (destruct decide; [done|]). simpl. by rewrite lookup_alter_ne.
  - rewrite retractHelp_eq. destruct (s !! toString id); [|done].
    destruct decide; [done|]. destruct decide; [|done].
    simpl. by rewrite lookup_alter_ne.
  - rewrite complete_eq. destruct (s !! toString id); [|done].
    simpl. by rewrite lookup_alter_ne.
  - rewrite view_eq. destruct (s !! toString id); [|done].
    simpl. destruct decide; [done|]. by rewrite lookup_alter_ne.
Qed.

(** X11: no call changes the requester of a task that exists: a task found
    under the same key after a call, raw updates included, has the requester
    it had. *)
Theorem requester_never_changes (op : Op) s (k : string) d d' :
  s !! k = Some d →
  exec op s !! k = Some d' →
  requester d' = requester d.
Proof.
  intros E [E'|[(d0 & u & E0 & _ & -> & Hu)|[E' _]]]%exec_lookup_inv;
    [congruence| |congruence].
  assert (d0 = d) as -> by congruence.
  destruct op as [newId r t de dl fs | id0 u' | id0 | a0 id0 | a0 id0 | now id0 c | a0 id0];
    try done; simpl.
  - destruct Hu as [-> ->]. reflexivity.
  - by destruct Hu as (-> & _).
  - by destruct Hu as (? & ? & ? & _ & ->).
  - by rewrite Hu.
  - by destruct Hu as (-> & _).
Qed.

(** X12: what each call leaves of a task that exists.  [create] and
    [delete] leave a task they do not remove as it is; a raw [update] leaves
    its requester; [offerHelp] and
    [retractHelp] write [assisters] only, [view] writes [viewed] only, and
    [complete] writes the three completion fields only. *)
Theorem calls_write_their_fields_only (op : Op) s (k : string) d d' :
  s !! k = Some d →
  exec op s !! k = Some d' →
  match op with
  | OpCreate _ _ _ _ _ _ | OpDelete _ => d' = d
  | OpUpdate _ _ => requester d' = requester d
  | OpOfferHelp _ _ | OpRetractHelp _ _ =>
      sameContent d d' ∧ viewed d' = viewed d ∧ sameCompletion d d'
  | OpComplete _ _ _ =>
      sameContent d d' ∧ assisters d' = assisters d ∧ viewed d' = viewed d
  | OpView _ _ =>
      sameContent d d' ∧ assisters d' = assisters d ∧ sameCompletion d d'
  end.
Proof.
  intros E [E'|[(d0 & u & E0 & _ & -> & Hu)|[E' _]]]%exec_lookup_inv;
    [|assert (d0 = d) as -> by congruence|congruence].
  - assert (d' = d) as -> by congruence.
    unfold sameContent, sameCompletion. destruct op; done.
  - unfold sameContent, sameCompletion.
    destruct op as [newId r t de dl fs | id0 u' | id0 | a0 id0 | a0 id0 | now id0 c | a0 id0];
      try done; simpl.
    + destruct Hu as [-> ->]. done.
    + by destruct Hu as (-> & _).
    + by destruct Hu as (? & ? & ? & _ & ->).
    + by rewrite Hu.
    + by destruct Hu as (-> & _).
Qed.

(** *** The invariants of the data model *)

Lemma memberOf_sub a l1 (x : ObjectId) l2 :
  ¬ memberOf a (l1 ++ x :: l2) → ¬ memberOf a (l1 ++ l2).
Proof.
  rewrite !memberOf_app, memberOf_cons. tauto.
Qed.

Lemma NoDup_strings_sub l1 (x : ObjectId) l2 :
  NoDup (map toString (l1 ++ x :: l2)) → NoDup (map toString (l1 ++ l2)).
Proof.
  rewrite !map_app. simpl. rewrite !NoDup_app, NoDup_cons.
  intros (? & Hd & _ & ?). split_and!; auto.
  intros y Hy Hy'. apply (Hd y Hy). by right.
Qed.

Lemma NoDup_strings_snoc l a :
  ¬ memberOf a l → NoDup (map toString l) →
  NoDup (map toString (l ++ [a])).
Proof.
  intros Hm Hn. rewrite map_app. simpl. apply NoDup_app. split_and!; auto.
  - intros y Hy [->|?%elem_of_nil]%elem_of_cons; done.
  - apply NoDup_singleton.
Qed.

(** One call and the invariants of a task it leaves in the store. *)
Lemma exec_lookup_wellFormed (op : Op) s (k : string) d' :
  writesArrays op = false →
  map_Forall (λ _, wellFormed) s →
  exec op s !! k = Some d' →
  wellFormed d'.
Proof.
  intros Hop Hs
    [E'|[(d & u & E & _ & -> & Hu)|[_ (newId & r & t & de & dl & fs & _ & _ & ->)]]]%exec_lookup_inv.
  - exact (Hs k d' E').
  - destruct (Hs k d E) as (Hreq & Has & Hvs).
    unfold wellFormed.
    destruct op as [newId r t de dl fs | id0 u' | id0 | a0 id0 | a0 id0 | now id0 c | a0 id0];
      try done; simpl in *.
    + destruct Hu as [-> Hr]. rewrite Hr. simpl.
      destruct (p_assisters u'), (p_viewed u'); try discriminate. done.
    + destruct Hu as (-> & Hr & Hm). simpl. split_and!; auto.
      * rewrite memberOf_app, memberOf_cons.
        intros [?|[?|?%memberOf_nil]]; [done| |done]. by apply Hr.
      * by apply NoDup_strings_snoc.
    + destruct Hu as (l1 & x & l2 & Hl & ->). simpl. rewrite Hl in *.
      split_and!; eauto using memberOf_sub, NoDup_strings_sub.
    + rewrite Hu. simpl. done.
    + destruct Hu as (-> & Hm). simpl. split_and!; auto.
      by apply NoDup_strings_snoc.
  - unfold wellFormed. simpl. split_and!.
    + apply memberOf_nil.
    + apply NoDup_nil_2.
    + apply NoDup_nil_2.
Qed.

(** X13: the calls of the workflow keep the invariants of the two arrays.
    If in every stored task the requester is no assister and neither
    [assisters] nor [viewed] holds a user twice, the same is true after any
    call other than a raw update that holds [assisters] or [viewed]. *)
Theorem exec_keeps_wellFormed (op : Op) s :
  writesArrays op = false →
  map_Forall (λ _, wellFormed) s →
  map_Forall (λ _, wellFormed) (exec op s).
Proof.
  intros Hop Hs k d' Hk. exact (exec_lookup_wellFormed op s k d' Hop Hs Hk).
Qed.

(** X14: after any calls made one after the other from the empty store,
    none of them a raw update that holds [assisters] or [viewed], in every
    task the requester is no assister and neither array holds a user
    twice. *)
Theorem reachable_wellFormed (ops : list Op) :
  existsb writesArrays ops = false →
  map_Forall (λ _, wellFormed) (execAll ops ∅).
Proof.
  assert (Hgen : ∀ s,
            existsb writesArrays ops = false →
            map_Forall (λ _, wellFormed) s →
            map_Forall (λ _, wellFormed) (execAll ops s)).
  { induction ops as [|op ops IH]; intros s; simpl.
    - auto.
    - intros [Hop Hops]%orb_false_iff Hs.
      apply IH; [exact Hops|].
      intros k d' Hk. exact (exec_lookup_wellFormed op s k d' Hop Hs Hk). }
  intros Hops. apply Hgen; [exact Hops|]. apply map_Forall_empty.
Qed.

(** *** The queries *)

#[local] Instance deadlineLe_total : Total (@deadlineLe ObjectId).
Proof. intros d1 d2. unfold deadlineLe. lia. Qed.

#[local] Instance deadlineLe_trans : Transitive (@deadlineLe ObjectId).
Proof. intros d1 d2 d3. unfold deadlineLe. lia. Qed.

Lemma getTasks_readMany (query : @Filter ObjectId) s :
  getTasks query s = readMany query s.
Proof. reflexivity. Qed.

(** What [readMany] yields: the matching stored documents, by ascending
    deadline, each stored document at most once when the keys are the
    strings of the identifiers. *)
Lemma readMany_yields (query : @Filter ObjectId) s :
  ∃ tasks,
    readMany query s = (inr tasks, s) ∧
    StronglySorted deadlineLe tasks ∧
    (∀ d, d ∈ tasks ↔ query d = true ∧ ∃ k, s !! k = Some d) ∧
    (keyed s → NoDup tasks).
Proof.
  eexists. split; [reflexivity|]. split_and!.
  - apply StronglySorted_merge_sort; apply _.
  - intros d. rewrite merge_sort_Permutation, list_elem_of_filter.
    rewrite list_elem_of_fmap. split.
    + intros (Hq & [k d0] & -> & Hin%elem_of_map_to_list). eauto.
    + intros (Hq & k & Hk). split; [done|].
      exists (k, d). split; [done|]. by apply elem_of_map_to_list.
  - intros Hs. rewrite merge_sort_Permutation.
    apply NoDup_filter, NoDup_fmap_2_strong; [|apply NoDup_map_to_list].
    intros [k1 d1] [k2 d2] H1%elem_of_map_to_list H2%elem_of_map_to_list.
    simpl. intros ->. f_equal.
    rewrite <- (Hs k1 d2 H1). exact (Hs k2 d2 H2).
Qed.

Lemma requesterOpen_true a d :
  requesterOpen a d = true ↔
  toString (requester d) = toString a ∧ completed d = false.
Proof.
  unfold requesterOpen.
  rewrite andb_true_iff, !bool_decide_eq_true. done.
Qed.

(** X15: [getTasksByRequester] returns, by ascending deadline, exactly the
    stored tasks whose requester has the caller's string form and whose
    [completed] is false: a completed task is never listed, and an open task
    of the requester is never left out. *)
Theorem getTasksByRequester_open a s :
  ∃ tasks,
    getTasksByRequester a s = (inr tasks, s) ∧
    StronglySorted deadlineLe tasks ∧
    (∀ d, d ∈ tasks ↔
          (∃ k, s !! k = Some d) ∧
          toString (requester d) = toString a ∧ completed d = false).
Proof.
  unfold getTasksByRequester. rewrite getTasks_readMany.
  destruct (readMany_yields (requesterOpen a) s) as (tasks & Hr & Hs & Hin & _).
  exists tasks. split_and!; [done..|].
  intros d. rewrite Hin, requesterOpen_true. tauto.
Qed.

(** X16: once [complete] has returned for a task, the task is in no
    requester's list of open tasks: with every document stored under the
    string of its [_id], no task [getTasksByRequester] returns has the
    identifier of the completed one. *)
Theorem complete_closes_task now id (c : option ObjectId) s ack s' :
  keyed s →
  complete now id c s = (inr ack, s') →
  ∀ a tasks d,
    getTasksByRequester a s' = (inr tasks, s') →
    d ∈ tasks → toString (_id d) ≠ toString id.
Proof.
  intros Hs. rewrite complete_eq.
  destruct (s !! toString id) as [d0|] eqn:E; [|discriminate].
  intros [= <- <-] a tasks d.
  unfold getTasksByRequester. rewrite getTasks_readMany.
  destruct (readMany_yields (requesterOpen a)
              (alter (applyUpdate (completeUpdate now c)) (toString id) s))
    as (tasks' & -> & _ & Hin & _).
  intros [= <-] Hd.
  apply Hin in Hd as ((_ & Hc)%requesterOpen_true & k & Hk).
  destruct (decide (k = toString id)) as [->|Hne].
  - rewrite lookup_alter_eq, E in Hk. injection Hk as <-. discriminate Hc.
  - rewrite lookup_alter_ne in Hk by done. by rewrite (Hs k d Hk).
Qed.

(** X17: a task just created can be fetched and is listed: when [create]
    returns, the task it returns is the one [getTaskById] then returns for
    the new identifier, and it is among the open tasks
    [getTasksByRequester] returns for its requester. *)
Theorem create_then_found
    newId a t de (dl : Date) (fs : option (list string)) s c s' :
  create newId a t de dl fs s = (inr c, s') →
  ∃ task tasks,
    created_id c = newId ∧
    created_task c = Some task ∧
    getTaskById newId s' = (inr task, s') ∧
    getTasksByRequester a s' = (inr tasks, s') ∧
    task ∈ tasks.
Proof.
  rewrite create_eq. destruct (s !! toString newId) eqn:En; [discriminate|].
  simpl. intros [= <- <-].
  set (task := mkTaskDoc newId a t de dl (default [] fs) [] [] false None None).
  unfold getTasksByRequester. rewrite getTasks_readMany.
  destruct (readMany_yields (requesterOpen a) (<[toString newId := task]> s))
    as (tasks & -> & _ & Hin & _).
  exists task, tasks. split_and!; try done.
  - unfold getTaskById, bind, readOne. by rewrite lookup_insert_eq.
  - apply Hin. split; [by apply requesterOpen_true|].
    exists (toString newId). by rewrite lookup_insert_eq.
Qed.

(** X18: after [delete] the task is gone for every other call: on the store
    it leaves, [offerHelp], [retractHelp], [complete] and [view] throw
    NotFound, and a second [delete] returns its acknowledgment and changes
    nothing. *)
Theorem delete_then_absent id s :
  let s' := (delete_ id s).2 in
  let notFound : Error :=
    NotFoundError ("Task " +:+ toString id +:+ " does not exist!") in
  s' !! toString id = None ∧
  (∀ a, offerHelp a id s' = (inl notFound, s')) ∧
  (∀ a, retractHelp a id s' = (inl notFound, s')) ∧
  (∀ now (c : option ObjectId), complete now id c s' = (inl notFound, s')) ∧
  (∀ a, view a id s' = (inl notFound, s')) ∧
  delete_ id s' = (inr (mkAck "Task deleted successfully!"), s').
Proof.
  intros s' notFound.
  assert (E : s' !! toString id = None) by apply lookup_delete_eq.
  split_and!; [done|intros a|intros a|intros now c|intros a|].
  - by rewrite offerHelp_eq, E.
  - by rewrite retractHelp_eq, E.
  - by rewrite complete_eq, E.
  - by rewrite view_eq, E.
  - rewrite delete_eq. by rewrite delete_id.
Qed.

End FurtherProperties.

(** * The further properties at the scenario of the specification *)

Lemma fixSinkOffered_is :
  fixSinkOffered =
  {["T" := mkTaskDoc "T" "R" "Fix sink" "The sink leaks." 1735689600000%Z
                     [] ["A"] [] false None None]}.
Proof. reflexivity. Qed.

Lemma fixSinkOffered_keyed : keyed fixSinkOffered.
Proof.
  rewrite fixSinkOffered_is.
  intros k d [<- <-]%lookup_singleton_Some. reflexivity.
Qed.

Lemma fixSinkOffered_wellFormed : map_Forall (λ _, wellFormed) fixSinkOffered.
Proof.
  rewrite fixSinkOffered_is. apply map_Forall_singleton.
  unfold wellFormed. simpl. split_and!.
  - intros [?|?%memberOf_nil]%memberOf_cons; done.
  - apply NoDup_singleton.
  - apply NoDup_nil_2.
Qed.

(** A is not the requester of the task: [isNotRequester] passes. *)
Lemma requester_guards_complement_witness :
  isRequester "A" "T" fixSink =
    (inl (TaskRequesterNotMatchError
            "{0} is not the host of Task {1}!" "A" "T"), fixSink) ∧
  isNotRequester "A" "T" fixSink = (inr (), fixSink).
Proof.
  exact (requester_guards_complement "A" "T" fixSink
           (mkTaskDoc "T" "R" "Fix sink" "The sink leaks." 1735689600000%Z
                      [] [] [] false None None)
           eq_refl).
Defined.

(** A has offered help: [isAssister] passes. *)
Lemma assister_guards_complement_witness :
  isAssister "A" "T" fixSinkOffered = (inr (), fixSinkOffered) ∧
  isNotAssister "A" "T" fixSinkOffered =
    (inl (NotAllowedError "Person is already an assister."), fixSinkOffered).
Proof.
  exact (assister_guards_complement "A" "T" fixSinkOffered
           (mkTaskDoc "T" "R" "Fix sink" "The sink leaks." 1735689600000%Z
                      [] ["A"] [] false None None)
           eq_refl).
Defined.

(** The guards on an id that resolves to no task. *)
Lemma guards_absent_NotFound_witness :
  isRequester "R" "U" fixSink =
    (inl (Thrown (NotFoundError "Task U does not exist!")), fixSink) ∧
  isNotRequester "R" "U" fixSink =
    (inl (NotFoundError "Task U does not exist!"), fixSink) ∧
  isAssister "R" "U" fixSink =
    (inl (NotFoundError "Task U does not exist!"), fixSink) ∧
  isNotAssister "R" "U" fixSink =
    (inl (NotFoundError "Task U does not exist!"), fixSink).
Proof. exact (guards_absent_NotFound "R" "U" fixSink eq_refl). Defined.

(** R may not retract help on R's own task. *)
Lemma retractHelp_requester_refused_witness :
  retractHelp "R" "T" fixSinkOffered =
    (inl (NotAllowedError "Person is the requester."), fixSinkOffered).
Proof.
  exact (retractHelp_requester_refused "R" "T" fixSinkOffered
           (mkTaskDoc "T" "R" "Fix sink" "The sink leaks." 1735689600000%Z
                      [] ["A"] [] false None None)
           eq_refl eq_refl).
Defined.

(** A offers help and retracts it: the store is the one before the offer. *)
Lemma offerHelp_retractHelp_restores_witness :
  retractHelp "A" "T" fixSinkOffered =
    (inr (mkAck "Successfully retracted help offer."), fixSink).
Proof.
  exact (offerHelp_retractHelp_restores "A" "T" fixSink
           (mkAck "Successfully offered help.") fixSinkOffered eq_refl).
Defined.

(** A retracts the one offer A made. *)
Lemma retractHelp_removes_one_witness :
  ∃ d d',
    fixSinkOffered !! "T" = Some d ∧
    fixSink !! "T" = Some d' ∧
    length (assisters d) = S (length (assisters d')) ∧
    occurrences "A" (assisters d) = S (occurrences "A" (assisters d')) ∧
    (∀ b : string, b ≠ "A" →
       occurrences b (assisters d') = occurrences b (assisters d)) ∧
    (occurrences "A" (assisters d) = 1 →
     retractHelp "A" "T" fixSink =
       (inl (NotAllowedError "Person is not an assister."), fixSink)).
Proof.
  exact (retractHelp_removes_one "A" "T" fixSinkOffered
           (mkAck "Successfully retracted help offer.") fixSink eq_refl).
Defined.

(** A, then B, offer help on the task. *)
Lemma offerHelp_in_order_witness :
  ∃ s2 d2,
    offerHelp "B" "T" fixSinkOffered =
      (inr (mkAck "Successfully offered help."), s2) ∧
    s2 !! "T" = Some d2 ∧
    assisters d2 = [] ++ ["A"; "B"].
Proof.
  refine (offerHelp_in_order "A" "B" "T" fixSink
            (mkTaskDoc "T" "R" "Fix sink" "The sink leaks." 1735689600000%Z
                       [] [] [] false None None)
            (mkAck "Successfully offered help.") fixSinkOffered
            eq_refl eq_refl _ _ _).
  - discriminate.
  - discriminate.
  - apply memberOf_nil.
Defined.

(** The refused offer of R leaves the store as it was. *)
Lemma thrown_writes_nothing_witness :
  exec (OpOfferHelp "R" "T") fixSinkOffered = fixSinkOffered.
Proof.
  exact (thrown_writes_nothing (OpOfferHelp "R" "T") fixSinkOffered
           (NotAllowedError "Person is the requester.") eq_refl).
Defined.

(** Completing task T leaves task S alone. *)
Lemma other_tasks_untouched_witness :
  exec (OpComplete 1735700000000%Z "T" (Some "A")) twoTasks !! "S" =
  twoTasks !! "S".
Proof.
  refine (other_tasks_untouched (OpComplete 1735700000000%Z "T" (Some "A"))
            twoTasks "S" _).
  discriminate.
Defined.

(** The update of the title keeps the requester. *)
Lemma requester_never_changes_witness :
  requester (applyUpdate newTitle
               (mkTaskDoc "T" "R" "Fix sink" "The sink leaks."
                          1735689600000%Z [] ["A"] [] false None None)) = "R".
Proof.
  exact (requester_never_changes (OpUpdate "T" newTitle) fixSinkOffered "T"
           (mkTaskDoc "T" "R" "Fix sink" "The sink leaks."
                      1735689600000%Z [] ["A"] [] false None None)
           (applyUpdate newTitle
              (mkTaskDoc "T" "R" "Fix sink" "The sink leaks."
                         1735689600000%Z [] ["A"] [] false None None))
           eq_refl eq_refl).
Defined.

(** Completing the task leaves its content, its assisters and its viewers. *)
Lemma calls_write_their_fields_only_witness :
  let d := mkTaskDoc "T" "R" "Fix sink" "The sink leaks."
                     1735689600000%Z [] ["A"] [] false None None in
  let d' := mkTaskDoc "T" "R" "Fix sink" "The sink leaks."
                      1735689600000%Z [] ["A"] [] true
                      (Some 1735700000000%Z) (Some "A") in
  sameContent d d' ∧ assisters d' = assisters d ∧ viewed d' = viewed d.
Proof.
  exact (calls_write_their_fields_only
           (OpComplete 1735700000000%Z "T" (Some "A")) fixSinkOffered "T"
           (mkTaskDoc "T" "R" "Fix sink" "The sink leaks."
                      1735689600000%Z [] ["A"] [] false None None)
           (mkTaskDoc "T" "R" "Fix sink" "The sink leaks."
                      1735689600000%Z [] ["A"] [] true
                      (Some 1735700000000%Z) (Some "A"))
           eq_refl eq_refl).
Defined.

(** The offer of B keeps the arrays of the task well formed. *)
Lemma exec_keeps_wellFormed_witness :
  map_Forall (λ _, wellFormed) (exec (OpOfferHelp "B" "T") fixSinkOffered).
Proof.
  exact (exec_keeps_wellFormed (OpOfferHelp "B" "T") fixSinkOffered
           eq_refl fixSinkOffered_wellFormed).
Defined.

(** The scenario, and a view, as calls made from the empty store. *)
Lemma reachable_wellFormed_witness :
  map_Forall (λ _, wellFormed)
    (execAll
       [OpCreate "T" "R" "Fix sink" "The sink leaks." 1735689600000%Z None;
        OpOfferHelp "A" "T"; OpOfferHelp "R" "T"; OpView "B" "T";
        OpRetractHelp "A" "T"; OpComplete 1735700000000%Z "T" (Some "A");
        OpUpdate "T" newTitle] ∅).
Proof.
  exact (reachable_wellFormed
           [OpCreate "T" "R" "Fix sink" "The sink leaks." 1735689600000%Z None;
            OpOfferHelp "A" "T"; OpOfferHelp "R" "T"; OpView "B" "T";
            OpRetractHelp "A" "T"; OpComplete 1735700000000%Z "T" (Some "A");
            OpUpdate "T" newTitle]
           eq_refl).
Defined.

Lemma twoTasks_keyed : keyed twoTasks.
Proof.
  change twoTasks with
    (<["S" := mkTaskDoc "S" "R" "Mow lawn" "" 1700000000000%Z
                        [] [] [] false None None]> fixSinkOffered).
  intros k d [[<- <-]|[_ Hk]]%lookup_insert_Some; [reflexivity|].
  exact (fixSinkOffered_keyed k d Hk).
Qed.

(** Once A completed task T, the open tasks of R are task S alone. *)
Lemma complete_closes_task_witness :
  getTasksByRequester "R"
    (complete 1735700000000%Z "T" (Some "A") twoTasks).2 =
    (inr [mkTaskDoc "S" "R" "Mow lawn" "" 1700000000000%Z
                    [] [] [] false None None],
     (complete 1735700000000%Z "T" (Some "A") twoTasks).2) ∧
  _id (mkTaskDoc "S" "R" "Mow lawn" "" 1700000000000%Z
                 [] [] [] false None None) ≠ "T".
Proof.
  split; [reflexivity|].
  refine (complete_closes_task 1735700000000%Z "T" (Some "A") twoTasks
            (mkAck "Successfully completed task.")
            (complete 1735700000000%Z "T" (Some "A") twoTasks).2
            twoTasks_keyed eq_refl "R"
            [mkTaskDoc "S" "R" "Mow lawn" "" 1700000000000%Z
                       [] [] [] false None None]
            (mkTaskDoc "S" "R" "Mow lawn" "" 1700000000000%Z
                       [] [] [] false None None)
            eq_refl _).
  left.
Defined.

(** The second task of R, once created, is fetched and listed. *)
Lemma create_then_found_witness :
  ∃ task tasks,
    "S" = "S" ∧
    Some (mkTaskDoc "S" "R" "Mow lawn" "" 1700000000000%Z
                    [] [] [] false None None) = Some task ∧
    getTaskById "S" twoTasks = (inr task, twoTasks) ∧
    getTasksByRequester "R" twoTasks = (inr tasks, twoTasks) ∧
    task ∈ tasks.
Proof.
  exact (create_then_found "S" "R" "Mow lawn" "" 1700000000000%Z None
           fixSinkOffered
           (mkCreated "Task successfully created!" "S"
              (Some (mkTaskDoc "S" "R" "Mow lawn" "" 1700000000000%Z
                               [] [] [] false None None)))
           twoTasks eq_refl).
Defined.

(** The two open tasks of R, the one due first listed first. *)
Example getTasksByRequester_twoTasks :
  match (getTasksByRequester "R" twoTasks).1 with
  | inr tasks => map title tasks = ["Mow lawn"; "Fix sink"]
  | inl _ => False
  end ∧
  (getTasksByRequester "A" twoTasks).1 = inr [] ∧
  (getTasksByRequester "R" fixSinkDone).1 = inr [].
Proof. repeat split. Qed.

(** * Properties of the conversions for the frontend *)

Section ResponsesProperties.

Context {ObjectId : Type} `{Identifier ObjectId}.

Variable idsToUsernames : list ObjectId -> list string.
Variables PostDoc FriendRequestDoc MessageDoc : Type.
Variable author : PostDoc -> ObjectId.
Variables request_from request_to : FriendRequestDoc -> ObjectId.
Variables message_from message_to : MessageDoc -> ObjectId.

Lemma lookup_map_Some {A B : Type} (f : A → B) (xs : list A) (i : nat) (x : A) :
  xs !! i = Some x → map f xs !! i = Some (f x).
Proof.
  revert i. induction xs as [|y xs IH]; intros [|i]; simpl; try done.
  - by intros [= ->].
  - apply IH.
Qed.

(** The two halves of the array of names [friendRequests] and [messages]
    ask for: the entry at [i] answers the [i]-th sender, the one at
    [i + n] the [i]-th receiver. *)
Lemma lookup_names_of_both {A : Type} (f g : A → ObjectId)
    (name : ObjectId → string) (xs : list A) (i : nat) (x : A) :
  xs !! i = Some x →
  map name (map f xs ++ map g xs) !! i = Some (name (f x)) ∧
  map name (map f xs ++ map g xs) !! (i + length xs) = Some (name (g x)).
Proof.
  intros Hi. rewrite map_app. split.
  - rewrite lookup_app_l.
    + by apply lookup_map_Some, lookup_map_Some.
    + rewrite !length_map. by apply lookup_lt_Some in Hi.
  - rewrite lookup_app_r by (rewrite !length_map; lia).
    rewrite !length_map. replace (i + length xs - length xs) with i by lia.
    by apply lookup_map_Some, lookup_map_Some.
Qed.

(** X19: when [idsToUsernames] answers each identifier of its array with
    the name of that identifier, in place, [posts] pairs every post with the
    name of its own author, in the order of the posts. *)
Theorem posts_own_author (username : ObjectId → string) (ps : list PostDoc) :
  (∀ ids, idsToUsernames ids = map username ids) →
  posts idsToUsernames PostDoc author ps =
    map (fun post => (post, Some (username (author post)))) ps.
Proof.
  intros Hn. unfold posts. rewrite Hn.
  rewrite <- (imap_const (fun post => (post, Some (username (author post))))).
  apply imap_ext. intros i post Hi. unfold const. f_equal.
  by apply lookup_map_Some, lookup_map_Some.
Qed.

(** X20: when [idsToUsernames] answers each identifier of its array with
    the name of that identifier, in place, [friendRequests] and [messages]
    give every document the name of its own sender and of its own receiver:
    the names are asked for in one array, senders first, and the receiver of
    the [i]-th document is read back at [i] plus the number of documents. *)
Theorem senders_and_receivers_own_names (username : ObjectId → string)
    (requests : list FriendRequestDoc) (ms : list MessageDoc) :
  (∀ ids, idsToUsernames ids = map username ids) →
  friendRequests idsToUsernames FriendRequestDoc request_from request_to
    requests =
    map (fun request => (request, Some (username (request_from request)),
                         Some (username (request_to request)))) requests ∧
  messages idsToUsernames MessageDoc message_from message_to ms =
    map (fun message => (message, Some (username (message_from message)),
                         Some (username (message_to message)))) ms.
Proof.
  intros Hn. unfold friendRequests, messages. rewrite !Hn. split.
  - rewrite <- (imap_const
                  (fun request =>
                     (request, Some (username (request_from request)),
                      Some (username (request_to request))))).
    apply imap_ext. intros i request Hi. unfold const.
    destruct (lookup_names_of_both request_from request_to username
                requests i request Hi) as [-> ->].
    reflexivity.
  - rewrite <- (imap_const
                  (fun message =>
                     (message, Some (username (message_from message)),
                      Some (username (message_to message))))).
    apply imap_ext. intros i message Hi. unfold const.
    destruct (lookup_names_of_both message_from message_to username
                ms i message Hi) as [-> ->].
    reflexivity.
Qed.

(** X21: whatever [idsToUsernames] answers, [tasks] returns one entry for
    each task, in the order of the tasks; the [i]-th entry has for
    [assisters] and [viewed] the answers to the arrays of the [i]-th task,
    and for [matched] the [i]-th flag when the call has the array of flags
    (undefined past its end, also when the array is empty) and no such key
    when it has not. *)
Theorem tasks_entry (ts : list (@TaskDoc ObjectId))
    (isMatched : option (list bool)) :
  length (tasks idsToUsernames ts isMatched) = length ts ∧
  ∀ (i : nat) task names,
    tasks idsToUsernames ts isMatched !! i = Some (task, names) ↔
    ts !! i = Some task ∧
    names =
      mkTaskNames (idsToUsernames (map requester ts) !! i)
                  (Some (idsToUsernames (assisters task)))
                  (Some (idsToUsernames (viewed task)))
                  ((fun flags => flags !! i) <$> isMatched).
Proof.
  assert (Hat : ∀ (f : @TaskDoc ObjectId → list string) (i : nat) task,
            ts !! i = Some task → map f ts !! i = Some (f task))
    by (intros f i task; apply lookup_map_Some).
  unfold tasks. destruct isMatched as [flags|]; simpl.
  - split; [apply length_imap|]. intros i task names.
    rewrite list_lookup_imap_Some. split.
    + intros (task' & Hi & [= <- ->]). split; [done|].
      by rewrite !(Hat _ i task Hi).
    + intros [Hi ->]. exists task. split; [done|].
      by rewrite !(Hat _ i task Hi).
  - split; [apply length_imap|]. intros i task names.
    rewrite list_lookup_imap_Some. split.
    + intros (task' & Hi & [= <- ->]). split; [done|].
      by rewrite !(Hat _ i task Hi).
    + intros [Hi ->]. exists task. split; [done|].
      by rewrite !(Hat _ i task Hi).
Qed.

(** X22: when [idsToUsernames] answers each identifier of its array with
    the name of that identifier, in place, [tasks] gives every task the name
    of its own requester and the names of its own assisters and viewers. *)
Theorem tasks_own_names (username : ObjectId → string)
    (ts : list (@TaskDoc ObjectId)) (isMatched : option (list bool)) :
  (∀ ids, idsToUsernames ids = map username ids) →
  ∀ (i : nat) task names,
    tasks idsToUsernames ts isMatched !! i = Some (task, names) →
    names_requester names = Some (username (requester task)) ∧
    names_assisters names = Some (map username (assisters task)) ∧
    names_viewed names = Some (map username (viewed task)).
Proof.
  intros Hn i task names. unfold tasks. rewrite !Hn.
  assert (Hat : ∀ (B : Type) (f : @TaskDoc ObjectId → B) task,
            ts !! i = Some task → map f ts !! i = Some (f task))
    by (intros B f task'; apply lookup_map_Some).
  destruct isMatched as [flags|]; rewrite list_lookup_imap_Some;
    intros (task' & Hi & [= <- ->]); simpl;
    rewrite (lookup_map_Some username _ i _ (Hat _ requester _ Hi));
    rewrite !(Hat _ _ _ Hi), !Hn; done.
Qed.

End ResponsesProperties.

(** Three posts, by their authors alone. *)
Lemma posts_own_author_witness :
  posts atNames string (fun post => post) ["A"; "B"; "A"] =
    [("A", Some "@A"); ("B", Some "@B"); ("A", Some "@A")].
Proof.
  exact (posts_own_author atNames string (fun post => post)
           (fun id => "@" +:+ id) ["A"; "B"; "A"] (fun ids => eq_refl)).
Defined.

(** Three friend requests, also read as three messages. *)
Lemma senders_and_receivers_own_names_witness :
  friendRequests atNames (string * string) fst snd threeRequests =
    [(("A", "B"), Some "@A", Some "@B"); (("C", "A"), Some "@C", Some "@A");
     (("B", "C"), Some "@B", Some "@C")] ∧
  messages atNames (string * string) fst snd threeRequests =
    [(("A", "B"), Some "@A", Some "@B"); (("C", "A"), Some "@C", Some "@A");
     (("B", "C"), Some "@B", Some "@C")].
Proof.
  exact (senders_and_receivers_own_names atNames
           (string * string) (string * string) fst snd fst snd
           (fun id => "@" +:+ id) threeRequests threeRequests
           (fun ids => eq_refl)).
Defined.

(** The task A offered help on, shown with the names of its users. *)
Lemma tasks_own_names_witness :
  tasks atNames
    [mkTaskDoc "T" "R" "Fix sink" "The sink leaks." 1735689600000%Z
               [] ["A"] [] false None None]
    (Some [true]) =
    [(mkTaskDoc "T" "R" "Fix sink" "The sink leaks." 1735689600000%Z
                [] ["A"] [] false None None,
      mkTaskNames (Some "@R") (Some ["@A"]) (Some []) (Some (Some true)))] ∧
  names_requester
    (mkTaskNames (Some "@R") (Some ["@A"]) (Some []) (Some (Some true))) =
    Some "@R" ∧
  names_assisters
    (mkTaskNames (Some "@R") (Some ["@A"]) (Some []) (Some (Some true))) =
    Some ["@A"] ∧
  names_viewed
    (mkTaskNames (Some "@R") (Some ["@A"]) (Some []) (Some (Some true))) =
    Some [].
Proof.
  split; [reflexivity|].
  exact (tasks_own_names atNames (fun id => "@" +:+ id)
           [mkTaskDoc "T" "R" "Fix sink" "The sink leaks." 1735689600000%Z
                      [] ["A"] [] false None None]
           (Some [true]) (fun ids => eq_refl) 0
           (mkTaskDoc "T" "R" "Fix sink" "The sink leaks." 1735689600000%Z
                      [] ["A"] [] false None None)
           (mkTaskNames (Some "@R") (Some ["@A"]) (Some []) (Some (Some true)))
           eq_refl).
Defined.
